(** * EarthquakeVisualizer: a shallow embedding of [src/App.js]

    The React component [App] is embedded as pure functions over an explicit
    application state.  JavaScript numbers are IEEE-754 binary64 values, taken
    here as Rocq's primitive floats, so that comparisons and the arithmetic of
    the marker size are exactly those the component performs.

    The component is embedded on feed documents of the shape it reads: a
    [features] array of records with [id], [properties] and [geometry],
    whose fields hold primitive values ([JsValue]), as the fields of the
    USGS feed do.  The fields are dynamically typed, and the coercions the
    operators [>=], [*], [+], [&&] and [!] apply to them are written out
    after ECMA-262.  A document of another shape (no [features] array, an
    event without [properties] or [geometry]) makes the component throw
    while it renders and has no counterpart here.  [getColor] is embedded a
    second time on arguments of any kind ([JsonValue]), where its
    comparisons can throw. *)

From Stdlib Require Import Floats Uint63 ZArith PArith List String Ascii Bool Lia.
Import ListNotations.

Set Warnings "-inexact-float,-register-all".

Local Open Scope string_scope.

(** ** JavaScript values *)

(** The primitive values a field of the parsed feed can hold, and
    [undefined] for a field that is missing. *)
Inductive JsValue : Type :=
| JsUndefined
| JsNull
| JsBoolean (b : bool)
| JsNumber (x : float)
| JsString (s : string).

(** Any value of a parsed document: a primitive, an array, or an object
    with its own properties in the order of the document (a name is looked
    up from the front).  [JSON.parse] makes arrays and objects whose
    prototypes are [Array.prototype] and [Object.prototype], and no
    property of theirs is a function. *)
Inductive JsonValue : Type :=
| JsPrimitive (v : JsValue)
| JsArray (elements : list JsonValue)
| JsObject (own : list (string * JsonValue)).

(** [HasOwnProperty (O, P)] on the own properties of an object. *)
Definition HasOwnProperty (own : list (string * JsonValue)) (P : string) : bool :=
  existsb (fun kv => String.eqb (fst kv) P) own.

Definition NaN : float := PrimFloat.nan.

(** [Number::lessThan (x, y)]: [None] stands for [undefined], the answer when
    either operand is NaN. *)
Definition Number_lessThan (x y : float) : option bool :=
  match PrimFloat.compare x y with
  | FNotComparable => None
  | FLt => Some true
  | FEq | FGt => Some false
  end.

(** [ToBoolean] on numbers: [+0], [-0] and NaN are falsy. *)
Definition Number_truthy (x : float) : bool :=
  negb (PrimFloat.eqb x 0 || PrimFloat.is_nan x).

(** [ToBoolean]. *)
Definition ToBoolean (v : JsValue) : bool :=
  match v with
  | JsUndefined | JsNull => false
  | JsBoolean b => b
  | JsNumber x => Number_truthy x
  | JsString s => negb (String.eqb s "")
  end.

(** ** Arrays *)

(** [Array.prototype.filter]: the elements on which the callback answers
    truthy, collected into a new array in increasing index order. *)
Fixpoint Array_filter {A : Type} (callbackfn : A -> bool) (O : list A) : list A :=
  match O with
  | [] => []
  | kValue :: rest =>
      if callbackfn kValue then kValue :: Array_filter callbackfn rest
      else Array_filter callbackfn rest
  end.

(** [Array.prototype.find]: the first element on which the predicate answers
    truthy; [None] stands for [undefined]. *)
Fixpoint Array_find {A : Type} (predicate : A -> bool) (O : list A) : option A :=
  match O with
  | [] => None
  | kValue :: rest =>
      if predicate kValue then Some kValue else Array_find predicate rest
  end.

(** [Array.prototype.map]. *)
Fixpoint Array_map {A B : Type} (callbackfn : A -> B) (O : list A) : list B :=
  match O with
  | [] => []
  | kValue :: rest => callbackfn kValue :: Array_map callbackfn rest
  end.

(** [x || y] when [x] is an object or [undefined]: objects are truthy. *)
Definition or_else {A : Type} (x y : option A) : option A :=
  match x with
  | Some _ => x
  | None => y
  end.

(** ** Data model *)

(** An entry of the region catalog; [center] is the array [[lat, lon]]. *)
Record Region : Type :=
  { name : string; center : list float; zoom : float }.

(** A feature record of the feed, of the shape the component reads:
    [id], [properties.{mag, place, time, url}], [geometry.coordinates]. *)
Record Properties : Type :=
  { mag : JsValue; place : JsValue; time : JsValue; url : JsValue }.

Record Geometry : Type := { coordinates : list JsValue }.

Record Feature : Type :=
  { id : JsValue; properties : Properties; geometry : Geometry }.

(** The parsed feed document, read through [data.features]. *)
Record FeatureCollection : Type := { features : list Feature }.

(** A thrown error, read through [err.message]. *)
Record JsError : Type := { message : string }.

(** What [fetch] resolves to: [response.ok], and what the promise
    [response.json()] settles to. *)
Record Response : Type :=
  { ok : bool; json : JsError + FeatureCollection }.

(** How the request ends: [fetch] rejects, or resolves to a response. *)
Definition FetchOutcome : Type := (JsError + Response)%type.

(** The options handed to [L.divIcon]. *)
Record DivIcon : Type := { html : string; className : string }.

(** The children of a [<Popup>]. *)
Record Popup : Type :=
  { popup_magnitude : JsValue;
    popup_location : JsValue;
    popup_depth : JsValue;
    popup_time : string;
    popup_href : JsValue }.

(** A [<Marker>] element: its key and its props; [position] is the array
    [[lat, lon]].  React keeps a key as a string, [None] standing for an
    element without key. *)
Record Marker : Type :=
  { key : option string; position : list JsValue; icon : DivIcon;
    popup : Popup }.

(** The five [useState] cells of [App].  [error] is [null] or a message;
    [selectedRegion] is a catalog entry, [None] standing for [undefined]. *)
Record AppState : Type :=
  { earthquakes : list Feature;
    loading : bool;
    error : JsValue;
    minMagnitude : float;
    selectedRegion : option Region }.

(** A call of one of the five state setters. *)
Inductive SetState : Type :=
| setEarthquakes (v : list Feature)
| setLoading (v : bool)
| setError (v : JsValue)
| setMinMagnitude (v : float)
| setSelectedRegion (v : option Region).

(** The state after a setter call: the cell is replaced, the others kept. *)
Definition apply_set (s : AppState) (c : SetState) : AppState :=
  match c with
  | setEarthquakes v =>
      {| earthquakes := v; loading := loading s; error := error s;
         minMagnitude := minMagnitude s; selectedRegion := selectedRegion s |}
  | setLoading v =>
      {| earthquakes := earthquakes s; loading := v; error := error s;
         minMagnitude := minMagnitude s; selectedRegion := selectedRegion s |}
  | setError v =>
      {| earthquakes := earthquakes s; loading := loading s; error := v;
         minMagnitude := minMagnitude s; selectedRegion := selectedRegion s |}
  | setMinMagnitude v =>
      {| earthquakes := earthquakes s; loading := loading s; error := error s;
         minMagnitude := v; selectedRegion := selectedRegion s |}
  | setSelectedRegion v =>
      {| earthquakes := earthquakes s; loading := loading s; error := error s;
         minMagnitude := minMagnitude s; selectedRegion := v |}
  end.

Definition apply_sets (s : AppState) (cs : list SetState) : AppState :=
  fold_left apply_set cs s.

(** ** Region catalog (App.js, [regions]) *)

Definition regions : list Region :=
  [ {| name := "World"; center := [20; 0]; zoom := 2 |};
    {| name := "North America"; center := [54; -105]; zoom := 3 |};
    {| name := "South America"; center := [-15; -60]; zoom := 3 |};
    {| name := "Europe"; center := [54; 15]; zoom := 4 |};
    {| name := "Asia"; center := [40; 100]; zoom := 3 |};
    {| name := "Africa"; center := [0; 20]; zoom := 3 |};
    {| name := "Australia"; center := [-25; 135]; zoom := 4 |};
    {| name := "India"; center := [20; 77]; zoom := 5 |};
    {| name := "Japan"; center := [36; 138]; zoom := 5 |};
    {| name := "California, USA"; center := [36.7783; -119.4179]; zoom := 6 |}
  ]%float.

(** ** Setter calls and exceptions *)

(** How a block completes: normally with a value, or by throwing. *)
Inductive Completion (A : Type) : Type :=
| Normal (a : A)
| Throw (err : JsError).
Arguments Normal {A} a.
Arguments Throw {A} err.

(** A computation of the component: the setter calls it has made, in order,
    and its completion. *)
Definition Eff (A : Type) : Type := (list SetState * Completion A)%type.

Definition ret {A : Type} (a : A) : Eff A := ([], Normal a).

Definition throw {A : Type} (err : JsError) : Eff A := ([], Throw err).

Definition bind {A B : Type} (m : Eff A) (k : A -> Eff B) : Eff B :=
  match m with
  | (cs, Normal a) => let (cs', r) := k a in ((cs ++ cs')%list, r)
  | (cs, Throw err) => (cs, Throw err)
  end.

Notation "x <- m ;; k" := (bind m (fun x => k))
  (at level 61, m at next level, right associativity).
Notation "m ;; k" := (bind m (fun _ => k))
  (at level 61, right associativity).

Definition call (c : SetState) : Eff unit := ([c], Normal tt).

(** [await p] for a promise that has settled: a rejection is thrown. *)
Definition await {A : Type} (p : JsError + A) : Eff A :=
  match p with
  | inl err => throw err
  | inr a => ret a
  end.

(** [try { body } catch (err) { handler }]. *)
Definition try_catch {A : Type} (body : Eff A) (handler : JsError -> Eff A) : Eff A :=
  match body with
  | (cs, Throw err) => let (cs', r) := handler err in ((cs ++ cs')%list, r)
  | (_, Normal _) => body
  end.

(** [try { body } finally { finalizer }]: the finalizer runs on both
    completions; the body's completion stands unless the finalizer throws. *)
Definition try_finally {A : Type} (body : Eff A) (finalizer : Eff unit) : Eff A :=
  let (cs, r) := body in
  match finalizer with
  | (cs', Normal _) => ((cs ++ cs')%list, r)
  | (cs', Throw err) => ((cs ++ cs')%list, Throw err)
  end.

(** [new Error (msg)]. *)
Definition Error (msg : string) : JsError := {| message := msg |}.

(** ** Data loader (App.js, [fetchData]) *)

Definition fetchData (outcome : FetchOutcome) : Eff unit :=
  try_finally
    (try_catch
       (response <- await outcome ;;
        (if negb (ok response)
         then throw (Error "Failed to fetch earthquake data!")
         else ret tt) ;;
        data <- await (json response) ;;
        call (setEarthquakes (features data)))
       (fun err => call (setError (JsString (message err)))))
    (call (setLoading false)).

(** The state at the first render. *)
Definition App_init : AppState :=
  {| earthquakes := [];
     loading := true;
     error := JsNull;
     minMagnitude := 0;
     selectedRegion := nth_error regions 0 |}.

(** The state once the request has ended and its setter calls are applied. *)
Definition settle (s : AppState) (outcome : FetchOutcome) : AppState :=
  apply_sets s (fst (fetchData outcome)).

(** ** Region selector (App.js, [onChange] of the [<select>]) *)

Definition select_onChange (value : string) : SetState :=
  setSelectedRegion
    (or_else (Array_find (fun r => String.eqb (name r) value) regions)
             (nth_error regions 0)).

(** What the component returns.  [content] is the fragment guarded by
    [!loading && !error]: the region dropdown, the magnitude slider and the
    map with its markers. *)
Record Content : Type :=
  { select_value : string;
    select_options : list string;
    range_value : float;
    map_center : list float;
    map_zoom : float;
    markers : list Marker }.

Record View : Type :=
  { loading_p : bool;
    error_p : option JsValue;
    content : option Content }.

(** What happens during a session: the request ends, or the user changes one
    of the two controls ([value] is [e.target.value]). *)
Inductive Change : Type :=
| RegionChange (value : string)
| MagnitudeChange (value : string).

Inductive Event : Type :=
| FetchSettled (outcome : FetchOutcome)
| UserChange (c : Change).

(** ** Built-ins

    Four conversions are built into the language and its host: the
    component's behaviour is stated for whatever they compute.  Closed
    instances that convert nothing take them at fixed answers. *)

Definition StringToNumber_unused : string -> float := fun _ => NaN.
Definition NumberToString_unused : float -> string := fun _ => "".
Definition parseFloat_unused : string -> float := fun _ => NaN.
Definition Date_toLocaleString_unused : JsValue -> string := fun _ => "".

Section Builtins.

(** [StringToNumber] and [Number::toString] of ECMA-262. *)
Variable StringToNumber : string -> float.
Variable NumberToString : float -> string.

(** [parseFloat], and [new Date (t).toLocaleString ()]. *)
Variable parseFloat : string -> float.
Variable Date_toLocaleString : JsValue -> string.

(** [ToString]. *)
Definition ToString (v : JsValue) : string :=
  match v with
  | JsUndefined => "undefined"
  | JsNull => "null"
  | JsBoolean true => "true"
  | JsBoolean false => "false"
  | JsNumber x => NumberToString x
  | JsString s => s
  end.

(** [ToNumber]. *)
Definition ToNumber (v : JsValue) : float :=
  match v with
  | JsUndefined => NaN
  | JsNull => 0%float
  | JsBoolean true => 1%float
  | JsBoolean false => 0%float
  | JsNumber x => x
  | JsString s => StringToNumber s
  end.

(** [a >= y] for a right operand that is a number, as in every comparison of
    the component: [r = IsLessThan (a, y)]; the result is [false] when [r]
    is [true] or [undefined], and [true] otherwise. *)
Definition ge (a : JsValue) (y : float) : bool :=
  match Number_lessThan (ToNumber a) y with
  | Some false => true
  | Some true | None => false
  end.

(** ** Marker colour (App.js, [getColor]) *)

Definition getColor (mag : JsValue) : string :=
  if ge mag 6 then "red"
  else if ge mag 5 then "orange"
  else if ge mag 4 then "yellow"
  else "blue".

(** [getColor] on an argument of any kind.  Each comparison [mag >= n]
    starts with [ToPrimitive (mag)], which leaves a primitive as it is and
    asks an object for [valueOf] and then [toString]: an array answers with
    its elements joined by commas; an object answers with the text
    ["[object Object]"] of [Object.prototype.toString], unless it has a
    property [toString] of its own, which is no function, and then
    [ToPrimitive] throws a [TypeError].  [None] stands for that
    [TypeError]. *)
Fixpoint ToString_any (v : JsonValue) : option string :=
  match v with
  | JsPrimitive p => Some (ToString p)
  | JsArray elements =>
      (fix join (l : list JsonValue) : option string :=
         match l with
         | [] => Some ""
         | element :: rest =>
             match
               match element with
               | JsPrimitive JsUndefined | JsPrimitive JsNull => Some ""
               | _ => ToString_any element
               end
             with
             | None => None
             | Some next =>
                 match rest with
                 | [] => Some next
                 | _ :: _ =>
                     match join rest with
                     | None => None
                     | Some R => Some (next ++ "," ++ R)
                     end
                 end
             end
         end) elements
  | JsObject own =>
      if HasOwnProperty own "toString" then None else Some "[object Object]"
  end.

Definition ToPrimitive (input : JsonValue) : option JsValue :=
  match input with
  | JsPrimitive p => Some p
  | JsArray _ | JsObject _ => option_map JsString (ToString_any input)
  end.

Definition ge_any (a : JsonValue) (y : float) : option bool :=
  option_map (fun px => ge px y) (ToPrimitive a).

Definition getColor_any (mag : JsonValue) : option string :=
  match ge_any mag 6 with
  | None => None
  | Some true => Some "red"
  | Some false =>
      match ge_any mag 5 with
      | None => None
      | Some true => Some "orange"
      | Some false =>
          match ge_any mag 4 with
          | None => None
          | Some true => Some "yellow"
          | Some false => Some "blue"
          end
      end
  end.

(** ** Marker icon (App.js, [createMarkerIcon]) *)

(** The number spliced into the template for both [width] and [height]:
    [8 + mag * 3], where [*] applies [ToNumber] to [mag] and [+] adds two
    numbers. *)
Definition markerSize (mag : JsValue) : float :=
  (8 + ToNumber mag * 3)%float.

(** The declarations of the [style] attribute, in the template's order.  A
    template hole [${e}] prints [e] with [ToString]. *)
Definition markerStyle (mag : JsValue) : list (string * string) :=
  let color := getColor mag in
  [ ("background", color);
    ("width", ToString (JsNumber (markerSize mag)) ++ "px");
    ("height", ToString (JsNumber (markerSize mag)) ++ "px");
    ("border-radius", "50%");
    ("border", "2px solid #fff");
    ("opacity", "0.85") ].

Definition dquote : string := String "034"%char EmptyString.
Definition newline : string := String "010"%char EmptyString.

(** The text of the template literal: every declaration sits on a line of
    its own, indented by eight spaces and closed by a semicolon. *)
Definition divHtml (style : list (string * string)) : string :=
  "<div style=" ++ dquote
    ++ concat ""
         (map (fun d => newline ++ "        " ++ fst d ++ ":" ++ snd d ++ ";")
              style)
    ++ newline ++ "      " ++ dquote ++ "></div>".

Definition createMarkerIcon (mag : JsValue) : DivIcon :=
  {| html := divHtml (markerStyle mag); className := "" |}.

(** ** Magnitude filter (App.js, [onChange] of the slider, [filteredQuakes]) *)

Definition range_onChange (value : string) : SetState :=
  setMinMagnitude (parseFloat value).

Definition filteredQuakes (s : AppState) : list Feature :=
  Array_filter (fun q => ge (mag (properties q)) (minMagnitude s))
               (earthquakes s).

(** ** Map view (App.js, the [return] of [App]) *)

(** The key of an element made with [key={v}]: React keeps ['' + v], and
    no key when [v] is [undefined]. *)
Definition React_key (v : JsValue) : option string :=
  match v with
  | JsUndefined => None
  | _ => Some (ToString v)
  end.

(** The callback of [filteredQuakes.map]: [[lon, lat, depth]] destructures
    the coordinates, a missing position reading [undefined]. *)
Definition renderMarker (quake : Feature) : Marker :=
  let lon := nth 0 (coordinates (geometry quake)) JsUndefined in
  let lat := nth 1 (coordinates (geometry quake)) JsUndefined in
  let depth := nth 2 (coordinates (geometry quake)) JsUndefined in
  let mag := mag (properties quake) in
  {| key := React_key (id quake);
     position := [lat; lon];
     icon := createMarkerIcon mag;
     popup :=
       {| popup_magnitude := mag;
          popup_location := place (properties quake);
          popup_depth := depth;
          popup_time := Date_toLocaleString (time (properties quake));
          popup_href := url (properties quake) |} |}.

(** One render of [App].  [None] is the [TypeError] of reading a property
    of an [undefined] selected region. *)
Definition render (s : AppState) : option View :=
  let filteredQuakes := filteredQuakes s in
  if negb (loading s) && negb (ToBoolean (error s)) then
    match selectedRegion s with
    | None => None
    | Some region =>
        Some {| loading_p := loading s;
                error_p := if ToBoolean (error s) then Some (error s) else None;
                content :=
                  Some {| select_value := name region;
                          select_options := Array_map name regions;
                          range_value := minMagnitude s;
                          map_center := center region;
                          map_zoom := zoom region;
                          markers := Array_map renderMarker filteredQuakes |} |}
    end
  else
    Some {| loading_p := loading s;
            error_p := if ToBoolean (error s) then Some (error s) else None;
            content := None |}.

(** The markers on screen after a render. *)
Definition rendered_markers (v : option View) : list Marker :=
  match v with
  | Some {| content := Some c |} => markers c
  | _ => []
  end.

(** ** Sessions *)

Definition step (s : AppState) (e : Event) : AppState :=
  match e with
  | FetchSettled outcome => settle s outcome
  | UserChange (RegionChange value) => apply_set s (select_onChange value)
  | UserChange (MagnitudeChange value) => apply_set s (range_onChange value)
  end.

(** The component mounts in [App_init] and issues its request once; the
    controls exist only after the request has ended, so a session is the
    end of the request followed by the user's changes. *)
Definition session (outcome : FetchOutcome) (changes : list Change) : AppState :=
  fold_left step (map UserChange changes) (settle App_init outcome).


(** ** Vocabulary of the properties *)

(** [selects p l l']: [l'] is [l] with exactly the elements that fail [p]
    struck out, the others staying in place. *)
Inductive selects {A : Type} (p : A -> bool) : list A -> list A -> Prop :=
| selects_nil : selects p [] []
| selects_keep (x : A) (l l' : list A) :
    p x = true -> selects p l l' -> selects p (x :: l) (x :: l')
| selects_drop (x : A) (l l' : list A) :
    p x = false -> selects p l l' -> selects p (x :: l) l'.

(** The callback of the magnitude filter at threshold [t]. *)
Definition at_least (t : float) (q : Feature) : bool :=
  ge (mag (properties q)) t.

(** The message of a request that failed: [fetch] rejected, the response
    was not a success, or [response.json ()] rejected.  [None] for a
    request that succeeded. *)
Definition failure_message (outcome : FetchOutcome) : option string :=
  match outcome with
  | inl err => Some (message err)
  | inr response =>
      if negb (ok response) then Some "Failed to fetch earthquake data!"
      else match json response with
           | inl err => Some (message err)
           | inr _ => None
           end
  end.

(** A request that succeeded with the document [data]. *)
Definition success (data : FeatureCollection) : FetchOutcome :=
  inr {| ok := true; json := inr data |}.

(** The arguments of the [setLoading] calls among some setter calls. *)
Fixpoint setLoading_calls (cs : list SetState) : list bool :=
  match cs with
  | [] => []
  | setLoading v :: cs' => v :: setLoading_calls cs'
  | _ :: cs' => setLoading_calls cs'
  end.

(** The phases of the data loader, read off the state: the request is
    pending from the first render on. *)
Inductive Phase : Type := Loading | Loaded | Failed.

Definition phase (s : AppState) : Phase :=
  if loading s then Loading
  else match error s with
       | JsNull => Loaded
       | _ => Failed
       end.

(** The feed of the worked example: one event of magnitude 6.2 at
    longitude -118.2, latitude 34.0 and depth 10. *)
Definition example_quake : Feature :=
  {| id := JsString "ci40000001";
     properties :=
       {| mag := JsNumber 6.2;
          place := JsString "Los Angeles, CA";
          time := JsNumber 1700000000000;
          url := JsString "https://earthquake.usgs.gov/earthquakes/eventpage/ci40000001" |};
     geometry :=
       {| coordinates := [JsNumber (-118.2); JsNumber 34.0; JsNumber 10] |} |}.

Definition example_feed : FetchOutcome :=
  success {| features := [example_quake] |}.

(** The number a feed denotes by a magnitude printed with two decimals:
    [c / 100] rounded to the nearest binary64 value, for [c] hundredths. *)
Definition hundredths (c : Z) : float :=
  if (c <? 0)%Z
  then (- (of_uint63 (of_Z (- c)) / 100))%float
  else (of_uint63 (of_Z c) / 100)%float.

(** The hundredths from -1.00 to 10.00. *)
Definition scale : list Z :=
  map (fun n : nat => (Z.of_nat n - 100)%Z) (seq 0 1101).

(** Whether [size] grows strictly along the scale. *)
Definition grows_on_scale (size : float -> float) : bool :=
  forallb
    (fun j : Z =>
       forallb
         (fun k : Z =>
            if (j <? k)%Z
            then (size (hundredths j) <? size (hundredths k))%float
            else true)
         scale)
    scale.

(** ** Values of binary64 numbers

    The exact value of a finite binary64 number is an integer once written
    in units of [2 ^ -1125], and so are the exact product with 3 and the
    exact sum with 8 that the marker size rounds. *)

Section Binary64Values.
Local Open Scope Z_scope.

(** The record that [k] right shifts of [v] leave. *)
Definition rec_of (v k : Z) : shr_record :=
  {| shr_m := v / 2 ^ k;
     shr_r := 2 ^ k <=? 2 * (v mod 2 ^ k);
     shr_s := negb (v mod 2 ^ k =? 0) && negb (2 * (v mod 2 ^ k) =? 2 ^ k) |}.

(** [v / 2 ^ k] rounded to the nearest integer, ties to even. *)
Definition RNE (v k : Z) : Z :=
  round_nearest_even (shr_m (rec_of v k)) (loc_of_shr_record (rec_of v k)).

(** The exponent of the unit in the last place of a value [V], and the value
    rounded to 53 bits (exponents are offset by 1125, the least being -1074). *)
Definition quantum (V : Z) : Z := Z.max (Zdigits2 V - 53) 51.

Definition round_value (V : Z) : Z := RNE V (quantum V) * 2 ^ quantum V.

(** The value that stands for infinity: [2 ^ 1024]. *)
Definition overflow_value : Z := 2 ^ 2149.

Definition value_of (x : spec_float) : Z :=
  match x with
  | S754_zero _ => 0
  | S754_finite s m e => cond_Zopp s (Zpos m * 2 ^ (e + 1125))
  | S754_infinity s => cond_Zopp s overflow_value
  | S754_nan => 0
  end.

Definition is_number (x : spec_float) : bool :=
  match x with
  | S754_nan => false
  | _ => true
  end.

(** Rounding with overflow to infinity, on positive and on signed values. *)
Definition round_overflow (V : Z) : Z := Z.min (round_value V) overflow_value.

Definition round_signed (z : Z) : Z :=
  if 0 <=? z then round_overflow z else - round_overflow (- z).

(** The numbers 3 and 8. *)
Definition three : spec_float := S754_finite false 6755399441055744 (-51).
Definition eight : spec_float := S754_finite false 4503599627370496 (-49).

End Binary64Values.

(** ** Map view changer (App.js, [MapViewChanger]) *)

(** A call on the map widget. *)
Inductive MapCall : Type :=
| setView (center : list float) (zoom : float).

(** The effect of [MapViewChanger]: [if (center) map.setView (center, zoom)].
    An array is truthy; [None] stands for an [undefined] prop. *)
Definition MapViewChanger_effect (center : option (list float)) (zoom : float)
  : list MapCall :=
  match center with
  | Some c => [setView c zoom]
  | None => []
  end.

(** [Object.is] on numbers. *)
Definition Number_sameValue (x y : float) : bool := PrimFloat.Leibniz.eqb x y.

(** [Object.is] on two centre arrays compares their identities.  A centre
    array is the literal of one catalog entry, and the literals of different
    entries differ in content, so that on the centres of the catalog
    identity is equality of contents. *)
Fixpoint same_numbers (a b : list float) : bool :=
  match a, b with
  | [], [] => true
  | x :: a', y :: b' => Number_sameValue x y && same_numbers a' b'
  | _, _ => false
  end.

(** The calls the effect makes after a render, [prev] being the render
    before it.  [MapViewChanger] is a child of the map, with the props
    [center] and [zoom] of the map: its effect runs when it mounts, and
    after a later render when one of the dependencies [[center, zoom, map]]
    is not the one of the render before ([map] is the one widget). *)
Definition MapViewChanger_calls (prev cur : option View) : list MapCall :=
  match cur with
  | Some {| content := Some c |} =>
      match prev with
      | Some {| content := Some c0 |} =>
          if same_numbers (map_center c0) (map_center c)
             && Number_sameValue (map_zoom c0) (map_zoom c)
          then []
          else MapViewChanger_effect (Some (map_center c)) (map_zoom c)
      | _ => MapViewChanger_effect (Some (map_center c)) (map_zoom c)
      end
  | _ => []
  end.

(** ** Vocabulary of the further properties *)

(** The severity a marker colour stands for. *)
Definition severity (color : string) : nat :=
  if String.eqb color "red" then 3
  else if String.eqb color "orange" then 2
  else if String.eqb color "yellow" then 1
  else 0.

(** How many of the three parts of the page a view shows: the loading text,
    the error text, the controls with the map. *)
Definition parts_shown (v : View) : nat :=
  (if loading_p v then 1 else 0)
  + (match error_p v with Some _ => 1 | None => 0 end)
  + (match content v with Some _ => 1 | None => 0 end).

(** A second event for the feed of the worked example: magnitude 4.1 at
    longitude -117.9, latitude 33.8 and depth 7.5. *)
Definition example_aftershock : Feature :=
  {| id := JsString "ci40000002";
     properties :=
       {| mag := JsNumber 4.1;
          place := JsString "Anaheim, CA";
          time := JsNumber 1700000600000;
          url := JsString "https://earthquake.usgs.gov/earthquakes/eventpage/ci40000002" |};
     geometry :=
       {| coordinates := [JsNumber (-117.9); JsNumber 33.8; JsNumber 7.5] |} |}.

(** The guards of the three parts of the page, in the order of the
    source: [loading], [error], [!loading && !error]. *)
Definition guards (s : AppState) : list bool :=
  [ loading s; ToBoolean (error s);
    negb (loading s) && negb (ToBoolean (error s)) ].

(** An event that is not the end of a request that failed. *)
Definition no_failure (e : Event) : bool :=
  match e with
  | FetchSettled outcome =>
      match failure_message outcome with
      | Some _ => false
      | None => true
      end
  | UserChange _ => true
  end.

(** * Properties *)

(** ** Order of binary64 values *)

Lemma SFcompare_antisym (x y : spec_float) :
  SFcompare y x = option_map CompOpp (SFcompare x y).
Proof.
  destruct x as [sx | sx | | sx mx ex], y as [sy | sy | | sy my ey];
    try destruct sx; try destruct sy; try reflexivity; simpl;
    rewrite (Z.compare_antisym ey ex);
    destruct (ey ?= ex)%Z; simpl; try reflexivity;
    rewrite (Pos.compare_cont_antisym mx my Eq); simpl;
    now rewrite ?CompOpp_involutive.
Qed.

(** [SFcompare] orders finite values by sign, then exponent, then
    mantissa; this order is transitive. *)
Lemma SFcompare_lt_le_trans (x y z : spec_float) :
  SFcompare x y = Some Lt ->
  SFcompare y z = Some Lt \/ SFcompare y z = Some Eq ->
  SFcompare x z = Some Lt.
Proof.
  destruct x as [sx | sx | | sx mx ex], y as [sy | sy | | sy my ey],
    z as [sz | sz | | sz mz ez];
    try destruct sx; try destruct sy; try destruct sz; simpl;
    intros Hxy [Hyz | Hyz]; try discriminate; try reflexivity;
    change (Pos.compare_cont Eq) with Pos.compare in *;
    repeat match goal with
      | H : context [(?a ?= ?b)%Z] |- _ => destruct (Z.compare_spec a b)
      | H : context [(?a ?= ?b)%positive] |- _ => destruct (Pos.compare_spec a b)
      | |- context [(?a ?= ?b)%Z] => destruct (Z.compare_spec a b)
      | |- context [(?a ?= ?b)%positive] => destruct (Pos.compare_spec a b)
      end;
    simpl in *; try discriminate; try reflexivity; try lia.
Qed.

Lemma SFcompare_refl (x : spec_float) :
  SFcompare x x = match x with S754_nan => None | _ => Some Eq end.
Proof.
  destruct x as [sx | sx | | sx mx ex]; try destruct sx; simpl;
    rewrite ?Z.compare_refl, ?Pos.compare_cont_refl; reflexivity.
Qed.

(** The reading of [>=] through [IsLessThan] is the IEEE-754 [<=] with its
    operands exchanged. *)
Lemma ge_Number (x y : float) : ge (JsNumber x) y = (y <=? x)%float.
Proof.
  unfold ge, Number_lessThan, ToNumber.
  rewrite FloatAxioms.compare_spec, FloatAxioms.leb_spec. unfold SFleb.
  rewrite (SFcompare_antisym (Prim2SF x) (Prim2SF y)).
  destruct (SFcompare (Prim2SF x) (Prim2SF y)) as [[ | | ] | ]; reflexivity.
Qed.

Lemma ltb_leb_trans (x a b : float) :
  (x <? a)%float = true -> (a <=? b)%float = true -> (b <=? x)%float = false.
Proof.
  rewrite FloatAxioms.ltb_spec, !FloatAxioms.leb_spec. unfold SFltb, SFleb. intros Hxa Hab.
  assert (Hxb : SFcompare (Prim2SF x) (Prim2SF b) = Some Lt).
  { apply SFcompare_lt_le_trans with (y := Prim2SF a).
    - destruct (SFcompare (Prim2SF x) (Prim2SF a)) as [[ | | ] | ];
        congruence.
    - destruct (SFcompare (Prim2SF a) (Prim2SF b)) as [[ | | ] | ];
        auto; discriminate. }
  rewrite (SFcompare_antisym (Prim2SF x) (Prim2SF b)), Hxb. reflexivity.
Qed.

(** A number that is not NaN is below [a] or at least [a]. *)
Lemma leb_false_ltb (x a : float) :
  (a <=? x)%float = false ->
  (x <? a)%float = true \/ is_nan x = true \/ is_nan a = true.
Proof.
  unfold is_nan. rewrite FloatAxioms.ltb_spec, FloatAxioms.leb_spec, !FloatAxioms.eqb_spec.
  unfold SFltb, SFleb, SFeqb.
  rewrite (SFcompare_antisym (Prim2SF x) (Prim2SF a)), !SFcompare_refl.
  destruct (Prim2SF x) as [sx | sx | | sx mx ex] eqn:Ex,
    (Prim2SF a) as [sa | sa | | sa ma ea] eqn:Ea; auto;
    destruct (SFcompare _ _) as [[ | | ] | ] eqn:E; simpl; auto;
    try discriminate; simpl in E; try discriminate;
    destruct sx, sa; discriminate.
Qed.

Lemma ltb_not_nan (x a : float) :
  (x <? a)%float = true -> is_nan x = false.
Proof.
  unfold is_nan. rewrite FloatAxioms.ltb_spec, FloatAxioms.eqb_spec. unfold SFltb, SFeqb.
  rewrite SFcompare_refl.
  destruct (Prim2SF x) as [sx | sx | | sx mx ex]; simpl; auto; discriminate.
Qed.

Lemma getColor_Number (m : float) :
  getColor (JsNumber m) =
    if (6 <=? m)%float then "red"
    else if (5 <=? m)%float then "orange"
    else if (4 <=? m)%float then "yellow"
    else "blue".
Proof. unfold getColor. now rewrite !ge_Number. Qed.

Lemma leb_nan (a x : float) :
  is_nan x = true -> (a <=? x)%float = false.
Proof.
  unfold is_nan.
  rewrite FloatAxioms.leb_spec, FloatAxioms.eqb_spec. unfold SFleb, SFeqb.
  rewrite SFcompare_refl.
  destruct (Prim2SF x) as [sx | sx | | sx mx ex]; try discriminate.
  intros _. now destruct (Prim2SF a).
Qed.

(** Closes a goal whose hypotheses place a number on both sides of a
    threshold, or make a NaN comparable. *)
Ltac order_clash :=
  solve
    [ discriminate
    | match goal with
      | H : (?m <? ?a)%float = true, H' : (?b <=? ?m)%float = true |- _ =>
          rewrite (ltb_leb_trans m a b H eq_refl) in H'; discriminate
      | H : is_nan ?m = true, H' : (?b <=? ?m)%float = true |- _ =>
          rewrite (leb_nan b m H) in H'; discriminate
      end ].

(** Reads [a <=? m = false] as [m < a], the number not being NaN because
    it is comparable to another threshold. *)
Ltac below a :=
  match goal with
  | H : (a <=? ?m)%float = false |- _ =>
      destruct (leb_false_ltb m a H) as [? | [? | ?]];
      [ | try order_clash | discriminate ]
  end.

(** C2.  On numbers, [getColor] sorts every magnitude into exactly one of
    four buckets of ascending severity, closed below and open above:
    blue below 4 (and for NaN, which no comparison admits), yellow on
    [4, 5), orange on [5, 6), red from 6 on; 3.9 is blue, 4.0 and 4.9 are
    yellow, 5.0 and 5.9 orange, 6.0 and 9.0 red. *)
Theorem getColor_buckets :
  (forall m : float,
      getColor (JsNumber m) = "blue"
      <-> ((m <? 4)%float = true \/ is_nan m = true)) /\
  (forall m : float,
      getColor (JsNumber m) = "yellow"
      <-> ((4 <=? m)%float = true /\ (m <? 5)%float = true)) /\
  (forall m : float,
      getColor (JsNumber m) = "orange"
      <-> ((5 <=? m)%float = true /\ (m <? 6)%float = true)) /\
  (forall m : float,
      getColor (JsNumber m) = "red" <-> (6 <=? m)%float = true) /\
  getColor (JsNumber 3.9) = "blue" /\
  getColor (JsNumber 4.0) = "yellow" /\
  getColor (JsNumber 4.9) = "yellow" /\
  getColor (JsNumber 5.0) = "orange" /\
  getColor (JsNumber 5.9) = "orange" /\
  getColor (JsNumber 6.0) = "red" /\
  getColor (JsNumber 9.0) = "red".
Proof.
  repeat match goal with |- _ /\ _ => split end; try reflexivity;
    intros m; rewrite getColor_Number;
    destruct (6 <=? m)%float eqn:H6; destruct (5 <=? m)%float eqn:H5;
    destruct (4 <=? m)%float eqn:H4;
    (split; intros H);
    repeat match goal with
      | H : _ /\ _ |- _ => destruct H
      | H : _ \/ _ |- _ => destruct H
      end;
    try order_clash; auto;
    try (below 4%float; now auto);
    try (below 5%float; now auto);
    try (below 6%float; now auto).
Qed.

Lemma ge_ToNumber (v : JsValue) (y : float) :
  ge v y = (y <=? ToNumber v)%float.
Proof. rewrite <- ge_Number. reflexivity. Qed.

(** On a primitive argument [getColor] of any value is [getColor]. *)
Lemma getColor_any_primitive (v : JsValue) :
  getColor_any (JsPrimitive v) = Some (getColor v).
Proof.
  unfold getColor_any, ge_any, getColor. simpl.
  destruct (ge v 6), (ge v 5), (ge v 4); reflexivity.
Qed.

(** [getColor] of any value converts its argument once and for all. *)
Lemma getColor_any_ToPrimitive (x : JsonValue) :
  getColor_any x = option_map getColor (ToPrimitive x).
Proof.
  unfold getColor_any, ge_any, getColor.
  destruct (ToPrimitive x) as [p | ]; [ | reflexivity]. simpl.
  destruct (ge p 6), (ge p 5), (ge p 4); reflexivity.
Qed.

Lemma getColor_four (v : JsValue) :
  getColor v = "red" \/ getColor v = "orange" \/
  getColor v = "yellow" \/ getColor v = "blue".
Proof.
  unfold getColor. destruct (ge v 6), (ge v 5), (ge v 4); auto.
Qed.

(** C10, as the code has it.  [getColor] answers on every primitive
    argument (number, string, boolean, [null]), and on a missing one, with
    one of the four colours; a value that passes none of the three
    comparisons gets blue, and so does every value whose number is NaN,
    [undefined] and NaN itself among them.  On an array or an object the
    first comparison converts the argument to a primitive: [getColor]
    answers with the colour of that primitive when the conversion
    succeeds, and throws the conversion's [TypeError] otherwise, as it does
    on every object with a property [toString] of its own. *)
Theorem getColor_total :
  (forall v : JsValue,
      getColor_any (JsPrimitive v) = Some (getColor v) /\
      (getColor v = "red" \/ getColor v = "orange" \/
       getColor v = "yellow" \/ getColor v = "blue")) /\
  (forall v : JsValue,
      ge v 6 = false /\ ge v 5 = false /\ ge v 4 = false
      <-> getColor v = "blue") /\
  (forall v : JsValue,
      is_nan (ToNumber v) = true -> getColor v = "blue") /\
  getColor JsUndefined = "blue" /\
  getColor (JsNumber NaN) = "blue" /\
  (forall x : JsonValue,
      (getColor_any x = None <-> ToPrimitive x = None) /\
      (forall color : string,
          getColor_any x = Some color ->
          (exists px : JsValue,
              ToPrimitive x = Some px /\ color = getColor px) /\
          (color = "red" \/ color = "orange" \/
           color = "yellow" \/ color = "blue"))) /\
  (forall own : list (string * JsonValue),
      HasOwnProperty own "toString" = true ->
      getColor_any (JsObject own) = None) /\
  (forall own : list (string * JsonValue),
      HasOwnProperty own "toString" = false ->
      getColor_any (JsObject own)
      = Some (getColor (JsString "[object Object]"))).
Proof.
  split; [intros v; split;
          [apply getColor_any_primitive | apply getColor_four] | ].
  split.
  { intros v. unfold getColor.
    destruct (ge v 6), (ge v 5), (ge v 4); split;
      try (intros (? & ? & ?)); intros; auto; discriminate. }
  split.
  { intros v Hnan. unfold getColor.
    now rewrite !ge_ToNumber, !(leb_nan _ _ Hnan). }
  split; [reflexivity | split; [reflexivity | ]].
  split.
  { intros x. rewrite getColor_any_ToPrimitive.
    destruct (ToPrimitive x) as [px | ]; simpl.
    - split; [split; discriminate | ].
      intros color [= <-].
      split; [now exists px | apply getColor_four].
    - split; [split; reflexivity | discriminate]. }
  split; intros own Hown; rewrite getColor_any_ToPrimitive;
    unfold ToPrimitive, ToString_any; now rewrite Hown.
Qed.

(** ** The magnitude filter *)

Section Filter.
Context {A : Type} (p : A -> bool).

Lemma Array_filter_selects (l : list A) : selects p l (Array_filter p l).
Proof.
  induction l as [ | x l IH]; simpl.
  - constructor.
  - destruct (p x) eqn:Hx; now constructor.
Qed.

Lemma selects_unique (l l1 l2 : list A) :
  selects p l l1 -> selects p l l2 -> l1 = l2.
Proof.
  intros H1. revert l2.
  induction H1 as [ | x l l1 Hx _ IH | x l l1 Hx _ IH];
    intros l2 H2; inversion H2; subst; try congruence.
  - f_equal. now apply IH.
  - now apply IH.
Qed.

Lemma Array_filter_In (l : list A) (x : A) :
  In x (Array_filter p l) <-> In x l /\ p x = true.
Proof.
  induction l as [ | y l IH]; simpl.
  - tauto.
  - destruct (p y) eqn:Hy; simpl; rewrite IH; split.
    + intros [-> | [H1 H2]]; auto.
    + intros [[-> | H1] H2]; auto.
    + intros [H1 H2]; auto.
    + intros [[-> | H1] H2]; auto. congruence.
Qed.

Lemma Array_filter_idempotent (l : list A) :
  Array_filter p (Array_filter p l) = Array_filter p l.
Proof.
  induction l as [ | x l IH]; simpl; auto.
  destruct (p x) eqn:Hx; simpl; rewrite ?Hx, IH; reflexivity.
Qed.

End Filter.

(** C1.  At every state, the filtered list holds exactly the loaded events
    whose magnitude is [>=] the threshold, in their loaded order (for a
    numeric magnitude [m], those with [threshold <= m]); it is the only
    such list, and it is derived anew from the state: after the threshold
    is set to [t] it is the filter at [t] of the loaded list, after a list
    [l] is loaded it is the filter of [l] at the current threshold, and no
    other setter changes it. *)
Theorem filteredQuakes_exact (s : AppState) :
  selects (at_least (minMagnitude s)) (earthquakes s) (filteredQuakes s) /\
  (forall l' : list Feature,
      selects (at_least (minMagnitude s)) (earthquakes s) l' ->
      l' = filteredQuakes s) /\
  (forall q : Feature,
      In q (filteredQuakes s)
      <-> In q (earthquakes s) /\ ge (mag (properties q)) (minMagnitude s) = true) /\
  (forall (q : Feature) (m : float),
      mag (properties q) = JsNumber m ->
      (In q (filteredQuakes s)
       <-> In q (earthquakes s) /\ (minMagnitude s <=? m)%float = true)) /\
  (forall t : float,
      filteredQuakes (apply_set s (setMinMagnitude t))
      = Array_filter (at_least t) (earthquakes s)) /\
  (forall l : list Feature,
      filteredQuakes (apply_set s (setEarthquakes l))
      = Array_filter (at_least (minMagnitude s)) l) /\
  (forall c : SetState,
      match c with
      | setMinMagnitude _ | setEarthquakes _ => True
      | _ => filteredQuakes (apply_set s c) = filteredQuakes s
      end).
Proof.
  repeat match goal with |- _ /\ _ => split end.
  - apply Array_filter_selects.
  - intros l' Hl'. eapply selects_unique; [exact Hl' | ].
    apply Array_filter_selects.
  - intros q. unfold filteredQuakes. now rewrite Array_filter_In.
  - intros q m Hm. unfold filteredQuakes.
    now rewrite Array_filter_In, Hm, ge_Number.
  - reflexivity.
  - reflexivity.
  - intros [ | | | | ]; auto.
Qed.

(** The loaded list is touched by no change of the two controls. *)
Lemma user_changes_keep_earthquakes (changes : list Change) (s : AppState) :
  earthquakes (fold_left step (map UserChange changes) s) = earthquakes s.
Proof.
  revert s. induction changes as [ | c changes IH]; intros s; simpl; auto.
  rewrite IH. now destruct c.
Qed.

(** C7.  Filtering at a threshold a list already filtered at that threshold
    gives the same list; and filtering leaves the loaded list as it was:
    no change of the threshold or the region alters it, so a threshold set
    after another filters the whole loaded list again. *)
Theorem filter_idempotent (s : AppState) :
  (forall t : float,
      Array_filter (at_least t) (Array_filter (at_least t) (earthquakes s))
      = Array_filter (at_least t) (earthquakes s)) /\
  filteredQuakes (apply_set s (setEarthquakes (filteredQuakes s)))
  = filteredQuakes s /\
  (forall changes : list Change,
      earthquakes (fold_left step (map UserChange changes) s)
      = earthquakes s) /\
  (forall t1 t2 : float,
      filteredQuakes
        (apply_set (apply_set s (setMinMagnitude t1)) (setMinMagnitude t2))
      = Array_filter (at_least t2) (earthquakes s)).
Proof.
  repeat match goal with |- _ /\ _ => split end.
  - intros t. apply Array_filter_idempotent.
  - unfold filteredQuakes. simpl. apply Array_filter_idempotent.
  - intros changes. apply user_changes_keep_earthquakes.
  - reflexivity.
Qed.

(** ** The data loader *)

(** The setter calls of [fetchData], by outcome; it never throws. *)
Lemma fetchData_calls (outcome : FetchOutcome) :
  fetchData outcome =
    (match outcome with
     | inr {| ok := true; json := inr data |} =>
         [setEarthquakes (features data); setLoading false]
     | inr {| ok := true; json := inl err |} =>
         [setError (JsString (message err)); setLoading false]
     | inr {| ok := false |} =>
         [setError (JsString "Failed to fetch earthquake data!");
          setLoading false]
     | inl err => [setError (JsString (message err)); setLoading false]
     end, Normal tt).
Proof. destruct outcome as [err | [[ | ] [err | data]]]; reflexivity. Qed.

Lemma fetchData_failure (outcome : FetchOutcome) (msg : string) :
  failure_message outcome = Some msg ->
  fetchData outcome = ([setError (JsString msg); setLoading false], Normal tt).
Proof.
  destruct outcome as [err | [[ | ] [err | data]]]; simpl;
    intros [= <-]; reflexivity.
Qed.

Lemma fetchData_success (outcome : FetchOutcome) :
  failure_message outcome = None ->
  exists data : FeatureCollection,
    outcome = success data /\
    fetchData outcome
    = ([setEarthquakes (features data); setLoading false], Normal tt).
Proof.
  destruct outcome as [err | [[ | ] [err | data]]]; simpl;
    intros [= ]. now exists data.
Qed.

(** Without loaded events a render shows no marker. *)
Lemma no_events_no_markers (s : AppState) :
  earthquakes s = [] -> rendered_markers (render s) = [].
Proof.
  intros He. unfold render, filteredQuakes. rewrite He. simpl.
  destruct (negb (loading s) && negb (ToBoolean (error s)));
    [destruct (selectedRegion s) | ]; reflexivity.
Qed.

(** X5.  When the request fails, the error cell receives the failure's
    message: the text
    ["Failed to fetch earthquake data!"] for a response that is not a
    success, and otherwise the message of the error that was thrown, so
    that the cell is truthy whenever that message is not empty.  The event
    list stays empty, [loading] becomes [false], and no marker is rendered,
    then or after any change of the controls. *)
Theorem fetch_failure (outcome : FetchOutcome) (msg : string) :
  failure_message outcome = Some msg ->
  error (settle App_init outcome) = JsString msg /\
  (msg <> "" -> ToBoolean (error (settle App_init outcome)) = true) /\
  (forall response : Response,
      outcome = inr response -> ok response = false ->
      msg = "Failed to fetch earthquake data!" /\ msg <> "") /\
  earthquakes (settle App_init outcome) = [] /\
  loading (settle App_init outcome) = false /\
  rendered_markers (render (settle App_init outcome)) = [] /\
  (forall changes : list Change,
      rendered_markers (render (session outcome changes)) = []).
Proof.
  intros Hmsg. unfold session, settle.
  rewrite (fetchData_failure _ _ Hmsg). simpl.
  repeat match goal with |- _ /\ _ => split end; auto.
  - intros Hne. destruct (String.eqb_spec msg ""); [contradiction | reflexivity].
  - intros response -> Hok. simpl in Hmsg. rewrite Hok in Hmsg. simpl in Hmsg.
    injection Hmsg as <-. split; [reflexivity | discriminate].
  - now apply no_events_no_markers.
  - intros changes. apply no_events_no_markers.
    now rewrite user_changes_keep_earthquakes.
Qed.

Lemma settle_failure (s : AppState) (outcome : FetchOutcome) (msg : string) :
  failure_message outcome = Some msg ->
  settle s outcome =
    {| earthquakes := earthquakes s; loading := false; error := JsString msg;
       minMagnitude := minMagnitude s; selectedRegion := selectedRegion s |}.
Proof.
  intros Hmsg. unfold settle. now rewrite (fetchData_failure _ _ Hmsg).
Qed.

Lemma settle_success (s : AppState) (data : FeatureCollection) :
  settle s (success data) =
    {| earthquakes := features data; loading := false; error := error s;
       minMagnitude := minMagnitude s; selectedRegion := selectedRegion s |}.
Proof. reflexivity. Qed.

(** Every outcome is a failure with a message or a success with a
    document. *)
Lemma outcome_cases (outcome : FetchOutcome) :
  (exists msg : string, failure_message outcome = Some msg) \/
  (exists data : FeatureCollection,
      outcome = success data /\ failure_message outcome = None).
Proof.
  destruct outcome as [err | [[ | ] [err | data]]]; simpl;
    try (left; eexists; reflexivity).
  right. exists data. split; reflexivity.
Qed.

(** The two controls write neither [loading] nor [error]. *)
Lemma user_change_keeps_loader (c : Change) (s : AppState) :
  loading (step s (UserChange c)) = loading s /\
  error (step s (UserChange c)) = error s.
Proof. now destruct c. Qed.

Lemma user_changes_keep_loader (changes : list Change) (s : AppState) :
  loading (fold_left step (map UserChange changes) s) = loading s /\
  error (fold_left step (map UserChange changes) s) = error s.
Proof.
  revert s. induction changes as [ | c changes IH]; intros s;
    cbn [map fold_left]; auto.
  destruct (IH (step s (UserChange c))) as [-> ->].
  apply user_change_keeps_loader.
Qed.

(** C5.  The loader starts in its loading phase, with [loading] true and
    no error.  [fetchData] returns for every outcome and calls
    [setLoading] exactly once, with [false]; the request once ended, the
    phase is failed or loaded by the outcome and stays so through every
    change of the controls, [loading] staying false and [error] what the
    end of the request left.  No step of any kind turns [loading] back on
    or takes an error message away, and a step that alters [error] is the
    end of a request that failed. *)
Theorem loader_lifecycle :
  phase App_init = Loading /\ loading App_init = true /\
  error App_init = JsNull /\
  (forall outcome : FetchOutcome,
      snd (fetchData outcome) = Normal tt /\
      setLoading_calls (fst (fetchData outcome)) = [false]) /\
  (forall outcome : FetchOutcome,
      loading (settle App_init outcome) = false /\
      error (settle App_init outcome)
      = match failure_message outcome with
        | Some msg => JsString msg
        | None => JsNull
        end /\
      phase (settle App_init outcome)
      = match failure_message outcome with
        | Some _ => Failed
        | None => Loaded
        end) /\
  (forall (outcome : FetchOutcome) (changes : list Change),
      loading (session outcome changes) = false /\
      error (session outcome changes) = error (settle App_init outcome) /\
      phase (session outcome changes) = phase (settle App_init outcome)) /\
  (forall (s : AppState) (e : Event),
      loading s = false -> loading (step s e) = false) /\
  (forall (s : AppState) (e : Event),
      error s <> JsNull -> error (step s e) <> JsNull) /\
  (forall (s : AppState) (e : Event),
      error (step s e) <> error s ->
      exists (outcome : FetchOutcome) (msg : string),
        e = FetchSettled outcome /\ failure_message outcome = Some msg /\
        error (step s e) = JsString msg).
Proof.
  assert (Hsettled : forall (s : AppState) (outcome : FetchOutcome),
             loading (settle s outcome) = false).
  { intros s outcome.
    destruct (outcome_cases outcome) as [[msg H] | (data & -> & H)];
      [now rewrite (settle_failure _ _ _ H) | reflexivity]. }
  split; [reflexivity | ]. split; [reflexivity | ]. split; [reflexivity | ].
  split.
  { intros outcome. rewrite fetchData_calls. split; [reflexivity | ].
    destruct outcome as [err | [[ | ] [err | data]]]; reflexivity. }
  split.
  { intros outcome. split; [apply Hsettled | ].
    destruct (outcome_cases outcome) as [[msg H] | (data & -> & H)].
    - rewrite H, (settle_failure _ _ _ H). split; reflexivity.
    - split; reflexivity. }
  split.
  { intros outcome changes. unfold session, phase.
    destruct (user_changes_keep_loader changes (settle App_init outcome))
      as [-> ->].
    split; [apply Hsettled | split; reflexivity]. }
  split.
  { intros s [outcome | c] Hl.
    - apply Hsettled.
    - now destruct (user_change_keeps_loader c s) as [-> _]. }
  split.
  { intros s [outcome | c] He.
    - cbn [step].
      destruct (outcome_cases outcome) as [[msg H] | (data & -> & H)];
        [rewrite (settle_failure _ _ _ H); discriminate | exact He].
    - now destruct (user_change_keeps_loader c s) as [_ ->]. }
  intros s [outcome | c] He.
  - cbn [step] in *.
    destruct (outcome_cases outcome) as [[msg H] | (data & -> & H)].
    + exists outcome, msg. now rewrite (settle_failure _ _ _ H).
    + now contradiction He.
  - destruct (user_change_keeps_loader c s) as [_ Heq].
    now contradiction He.
Qed.

(** C6, as the code has it.  When the request succeeds, [fetchData] calls
    [setEarthquakes (data.features)] and [setLoading (false)] and nothing
    else: the event list becomes the parsed array whatever it held, the
    error cell is left as it was, hence [null] in the state the request
    started from.  With an empty array, [loading] is false, there is no
    error, and the map is rendered with no marker. *)
Theorem fetch_success (data : FeatureCollection) :
  fetchData (success data)
  = ([setEarthquakes (features data); setLoading false], Normal tt) /\
  (forall s : AppState,
      earthquakes (settle s (success data)) = features data /\
      error (settle s (success data)) = error s /\
      loading (settle s (success data)) = false) /\
  error (settle App_init (success data)) = JsNull /\
  ToBoolean (error (settle App_init (success data))) = false /\
  loading (settle App_init (success {| features := [] |})) = false /\
  error (settle App_init (success {| features := [] |})) = JsNull /\
  (exists c : Content,
      render (settle App_init (success {| features := [] |}))
      = Some {| loading_p := false; error_p := None; content := Some c |} /\
      markers c = []) /\
  rendered_markers (render (settle App_init (success {| features := [] |})))
  = [].
Proof.
  repeat match goal with |- _ /\ _ => split end; try reflexivity.
  - intros s. rewrite settle_success. repeat split.
  - eexists. split; reflexivity.
Qed.

(** ** The region selector *)

Lemma Array_find_none {A : Type} (p : A -> bool) (l : list A) :
  (forall x : A, In x l -> p x = false) -> Array_find p l = None.
Proof.
  induction l as [ | x l IH]; intros H; simpl; auto.
  rewrite (H x (or_introl eq_refl)). apply IH.
  intros y Hy. apply H. now right.
Qed.

(** What a render shows when it shows the map. *)
Lemma render_content (s : AppState) (v : View) (c : Content) :
  render s = Some v -> content v = Some c ->
  exists region : Region,
    selectedRegion s = Some region /\
    select_value c = name region /\
    map_center c = center region /\
    map_zoom c = zoom region /\
    markers c = Array_map renderMarker (filteredQuakes s).
Proof.
  unfold render.
  destruct (negb (loading s) && negb (ToBoolean (error s))).
  - destruct (selectedRegion s) as [region | ]; [ | discriminate].
    intros [= <-] [= <-]. exists region. repeat split.
  - intros [= <-]. discriminate.
Qed.

(** C4.  The names of the catalog are distinct.  Selecting a name of the
    catalog makes the entry of that name the selected region, and a map
    then rendered is centred and zoomed as that entry says; selecting a
    name that is not in the catalog makes the first entry, World, the
    selected region. *)
Theorem select_region (s : AppState) (value : string) :
  NoDup (map name regions) /\
  (forall r : Region,
      In r regions -> name r = value ->
      selectedRegion (step s (UserChange (RegionChange value))) = Some r /\
      (forall (v : View) (c : Content),
          render (step s (UserChange (RegionChange value))) = Some v ->
          content v = Some c ->
          select_value c = name r /\
          map_center c = center r /\ map_zoom c = zoom r)) /\
  ((forall r : Region, In r regions -> name r <> value) ->
   selectedRegion (step s (UserChange (RegionChange value)))
   = nth_error regions 0 /\
   nth_error regions 0
   = Some {| name := "World"; center := [20%float; 0%float];
             zoom := 2%float |}).
Proof.
  split; [ | split].
  - repeat constructor; simpl; intuition discriminate.
  - intros r Hin <-.
    assert (Hsel : selectedRegion (step s (UserChange (RegionChange (name r))))
                   = Some r).
    { simpl in Hin.
      repeat destruct Hin as [<- | Hin]; try reflexivity. contradiction. }
    split; [exact Hsel | ].
    intros v c Hv Hc.
    destruct (render_content _ _ _ Hv Hc) as (r' & Hr' & -> & -> & -> & _).
    rewrite Hsel in Hr'. now injection Hr' as <-.
  - intros Habsent. split; [ | reflexivity].
    cbn [step apply_set select_onChange selectedRegion].
    rewrite Array_find_none; [reflexivity | ].
    intros r Hr. apply String.eqb_neq. now apply Habsent.
Qed.

(** ** The markers *)

Lemma Array_map_length {A B : Type} (f : A -> B) (l : list A) :
  List.length (Array_map f l) = List.length l.
Proof. induction l; simpl; auto. Qed.

Lemma Array_map_nth_error {A B : Type} (f : A -> B) (l : list A)
      (i : nat) (x : A) :
  nth_error l i = Some x -> nth_error (Array_map f l) i = Some (f x).
Proof.
  revert i. induction l as [ | y l IH]; intros [ | i]; simpl;
    try discriminate; auto.
  now intros [= ->].
Qed.

(** A region is selected at every moment of a session. *)
Lemma user_changes_keep_region (changes : list Change) (s : AppState) :
  selectedRegion s <> None ->
  selectedRegion (fold_left step (map UserChange changes) s) <> None.
Proof.
  revert s. induction changes as [ | c changes IH]; intros s Hs;
    cbn [map fold_left]; auto.
  apply IH. destruct c as [value | value]; [ | exact Hs].
  cbn [step apply_set select_onChange selectedRegion].
  destruct (Array_find _ regions); discriminate.
Qed.

(** When the map is shown, its markers are those of the filtered events. *)
Lemma shown_markers (s : AppState) :
  loading s = false -> ToBoolean (error s) = false ->
  selectedRegion s <> None ->
  rendered_markers (render s) = Array_map renderMarker (filteredQuakes s).
Proof.
  intros Hl He Hr. unfold render. rewrite Hl, He.
  destruct (selectedRegion s); [reflexivity | contradiction].
Qed.

(** Appending strings is associative. *)
Lemma append_assoc (a b c : string) : (a ++ b) ++ c = a ++ b ++ c.
Proof.
  induction a as [ | ch a IH]; simpl; [reflexivity | now rewrite IH].
Qed.

(** The text of the icon, as the template literal of [createMarkerIcon]
    prints it. *)
Lemma createMarkerIcon_html (mag : JsValue) :
  html (createMarkerIcon mag)
  = "<div style=" ++ dquote ++ newline
    ++ "        background:" ++ getColor mag ++ ";" ++ newline
    ++ "        width:" ++ NumberToString (markerSize mag) ++ "px;" ++ newline
    ++ "        height:" ++ NumberToString (markerSize mag) ++ "px;" ++ newline
    ++ "        border-radius:50%;" ++ newline
    ++ "        border:2px solid #fff;" ++ newline
    ++ "        opacity:0.85;" ++ newline
    ++ "      " ++ dquote ++ "></div>".
Proof.
  unfold createMarkerIcon, divHtml, markerStyle, html, dquote, newline.
  cbn [map concat fst snd ToString].
  repeat rewrite append_assoc. reflexivity.
Qed.

(** The key React keeps for an identifier that is a string is that
    string. *)
Lemma React_key_string (k : string) : React_key (JsString k) = Some k.
Proof. reflexivity. Qed.

(** C8.  When the map is shown, and so at every moment of a session, the
    markers are the filtered events in order, one marker each.  The marker
    of an event is keyed by the event's [id] (React keeps the key as the
    string ['' + id], which is the identifier itself when it is a string),
    stands at [[lat, lon]] for coordinates [[lon, lat, depth]], and its
    icon is the text of the template with the colour and the size of the
    event's magnitude.  For the feed of one event of magnitude 6.2 at (lon
    -118.2, lat 34.0, depth 10), the initial threshold 0 gives one marker,
    keyed by the event's identifier, at [[34.0, -118.2]], whose icon has
    the background red and the size 26.6; the threshold 6.5 gives none. *)
Theorem markers_of_filtered (s : AppState) :
  (loading s = false -> ToBoolean (error s) = false ->
   selectedRegion s <> None ->
   rendered_markers (render s) = Array_map renderMarker (filteredQuakes s) /\
   List.length (rendered_markers (render s))
   = List.length (filteredQuakes s) /\
   (forall (i : nat) (q : Feature),
       nth_error (filteredQuakes s) i = Some q ->
       exists mk : Marker,
         nth_error (rendered_markers (render s)) i = Some mk /\
         key mk = React_key (id q) /\
         (forall k : string, id q = JsString k -> key mk = Some k) /\
         position mk = [nth 1 (coordinates (geometry q)) JsUndefined;
                        nth 0 (coordinates (geometry q)) JsUndefined] /\
         className (icon mk) = "" /\
         html (icon mk)
         = "<div style=" ++ dquote ++ newline
           ++ "        background:" ++ getColor (mag (properties q)) ++ ";"
           ++ newline
           ++ "        width:" ++ NumberToString (markerSize (mag (properties q)))
           ++ "px;" ++ newline
           ++ "        height:" ++ NumberToString (markerSize (mag (properties q)))
           ++ "px;" ++ newline
           ++ "        border-radius:50%;" ++ newline
           ++ "        border:2px solid #fff;" ++ newline
           ++ "        opacity:0.85;" ++ newline
           ++ "      " ++ dquote ++ "></div>")) /\
  (forall (outcome : FetchOutcome) (changes : list Change),
      rendered_markers (render (session outcome changes))
      = Array_map renderMarker (filteredQuakes (session outcome changes)) /\
      List.length (rendered_markers (render (session outcome changes)))
      = List.length (filteredQuakes (session outcome changes))) /\
  rendered_markers (render App_init)
  = Array_map renderMarker (filteredQuakes App_init) /\
  minMagnitude (settle App_init example_feed) = 0%float /\
  (exists mk : Marker,
      rendered_markers (render (settle App_init example_feed)) = [mk] /\
      key mk = Some "ci40000001" /\
      position mk = [JsNumber 34.0; JsNumber (-118.2)] /\
      html (icon mk)
      = "<div style=" ++ dquote ++ newline
        ++ "        background:red;" ++ newline
        ++ "        width:" ++ NumberToString 26.6 ++ "px;" ++ newline
        ++ "        height:" ++ NumberToString 26.6 ++ "px;" ++ newline
        ++ "        border-radius:50%;" ++ newline
        ++ "        border:2px solid #fff;" ++ newline
        ++ "        opacity:0.85;" ++ newline
        ++ "      " ++ dquote ++ "></div>") /\
  rendered_markers
    (render (apply_set (settle App_init example_feed) (setMinMagnitude 6.5)))
  = [].
Proof.
  assert (Hsession : forall (outcome : FetchOutcome) (changes : list Change),
             rendered_markers (render (session outcome changes))
             = Array_map renderMarker (filteredQuakes (session outcome changes))).
  { intros outcome changes.
    destruct (outcome_cases outcome) as [[msg H] | (data & -> & _)].
    - assert (He : earthquakes (session outcome changes) = []).
      { unfold session.
        now rewrite user_changes_keep_earthquakes, (settle_failure _ _ _ H). }
      rewrite (no_events_no_markers _ He). unfold filteredQuakes.
      now rewrite He.
    - unfold session.
      destruct (user_changes_keep_loader changes (settle App_init (success data)))
        as [Hl He].
      apply shown_markers.
      + now rewrite Hl.
      + now rewrite He.
      + apply user_changes_keep_region. discriminate. }
  split; [ | split; [ | split; [reflexivity | split;
                       [reflexivity | split; [ | reflexivity]]]]].
  - intros Hl He Hr. rewrite (shown_markers s Hl He Hr).
    split; [reflexivity | split].
    + apply Array_map_length.
    + intros i q Hq. exists (renderMarker q).
      split; [now apply Array_map_nth_error | ].
      split; [reflexivity | ].
      split; [intros k Hk; cbn [renderMarker key]; now rewrite Hk | ].
      split; [reflexivity | ].
      split; [reflexivity | ].
      exact (createMarkerIcon_html (mag (properties q))).
  - intros outcome changes. rewrite Hsession.
    split; [reflexivity | apply Array_map_length].
  - exists (renderMarker example_quake).
    split; [reflexivity | ].
    split; [reflexivity | ].
    split; [reflexivity | ].
    cbn [renderMarker icon example_quake properties mag].
    rewrite createMarkerIcon_html.
    replace (markerSize (JsNumber 6.2)) with 26.6%float by reflexivity.
    replace (getColor (JsNumber 6.2)) with "red" by reflexivity.
    reflexivity.
Qed.

(** ** Rounding of binary64 arithmetic is monotone *)

Section Binary64Rounding.
Local Open Scope Z_scope.

(** Powers of two. *)

Lemma pow2_pos (k : Z) : 0 <= k -> 0 < 2 ^ k.
Proof. intros. apply Z.pow_pos_nonneg; lia. Qed.

Lemma pow2_add (a b : Z) : 0 <= a -> 0 <= b -> 2 ^ (a + b) = 2 ^ a * 2 ^ b.
Proof. intros. apply Z.pow_add_r; lia. Qed.

Lemma pow2_le (a b : Z) : 0 <= a <= b -> 2 ^ a <= 2 ^ b.
Proof. intros. apply Z.pow_le_mono_r; lia. Qed.

Lemma pow2_lt (a b : Z) : 0 <= a < b -> 2 ^ a < 2 ^ b.
Proof. intros. apply Z.pow_lt_mono_r; lia. Qed.

Lemma pow2_succ (a : Z) : 0 <= a -> 2 ^ (a + 1) = 2 * 2 ^ a.
Proof. intros. rewrite pow2_add by lia. change (2 ^ 1) with 2. lia. Qed.

(** The number of binary digits. *)

Lemma digits2_pos_bounds (p : positive) :
  2 ^ (Zpos (digits2_pos p) - 1) <= Zpos p < 2 ^ Zpos (digits2_pos p).
Proof.
  induction p as [p IH | p IH | ]; simpl digits2_pos.
  - rewrite Pos2Z.inj_succ.
    replace (Z.succ (Zpos (digits2_pos p)) - 1) with (Zpos (digits2_pos p) - 1 + 1) by lia.
    unfold Z.succ. rewrite !pow2_succ by lia. lia.
  - rewrite Pos2Z.inj_succ.
    replace (Z.succ (Zpos (digits2_pos p)) - 1) with (Zpos (digits2_pos p) - 1 + 1) by lia.
    unfold Z.succ. rewrite !pow2_succ by lia. lia.
  - simpl. lia.
Qed.

Lemma Zdigits2_bounds (v : Z) :
  0 < v -> 2 ^ (Zdigits2 v - 1) <= v < 2 ^ Zdigits2 v.
Proof. destruct v; try lia. intros _. apply digits2_pos_bounds. Qed.

Lemma Zdigits2_pos (v : Z) : 0 < v -> 0 < Zdigits2 v.
Proof. destruct v; simpl; lia. Qed.

Lemma Zdigits2_unique (v d : Z) :
  2 ^ (d - 1) <= v < 2 ^ d -> 0 < v -> Zdigits2 v = d.
Proof.
  intros [Hl Hu] Hv.
  destruct (Zdigits2_bounds v Hv) as [Hl' Hu'].
  assert (Hd := Zdigits2_pos v Hv).
  assert (0 < d).
  { destruct (Z.ltb_spec 0 d); [lia | ].
    destruct (Z.eq_dec d 0) as [-> | Hne]; [simpl in Hu; lia | ].
    rewrite Z.pow_neg_r in Hu by lia. lia. }
  destruct (Z.lt_trichotomy (Zdigits2 v) d) as [Hlt | [Heq | Hgt]]; [ | exact Heq | ].
  - assert (2 ^ Zdigits2 v <= 2 ^ (d - 1)) by (apply pow2_le; lia). lia.
  - assert (2 ^ d <= 2 ^ (Zdigits2 v - 1)) by (apply pow2_le; lia). lia.
Qed.

Lemma Zdigits2_mono (v w : Z) : 0 < v <= w -> Zdigits2 v <= Zdigits2 w.
Proof.
  intros [Hv Hvw].
  destruct (Zdigits2_bounds v Hv) as [Hl Hu].
  destruct (Zdigits2_bounds w ltac:(lia)) as [Hl' Hu'].
  assert (Hd := Zdigits2_pos v Hv).
  destruct (Z.le_gt_cases (Zdigits2 v) (Zdigits2 w)) as [ | Hgt]; [assumption | ].
  assert (2 ^ Zdigits2 w <= 2 ^ (Zdigits2 v - 1)).
  { apply pow2_le. assert (0 < Zdigits2 w) by (apply Zdigits2_pos; lia). lia. }
  lia.
Qed.

Lemma Zdigits2_mul_pow2 (v j : Z) :
  0 < v -> 0 <= j -> Zdigits2 (v * 2 ^ j) = Zdigits2 v + j.
Proof.
  intros Hv Hj.
  destruct (Zdigits2_bounds v Hv) as [Hl Hu].
  assert (Hd := Zdigits2_pos v Hv).
  assert (Hp := pow2_pos j Hj).
  apply Zdigits2_unique; [ | nia].
  replace (Zdigits2 v + j - 1) with (Zdigits2 v - 1 + j) by lia.
  rewrite !pow2_add by lia. nia.
Qed.

Lemma Zdigits2_div_pow2 (v j : Z) :
  0 < v -> 0 <= j < Zdigits2 v -> Zdigits2 (v / 2 ^ j) = Zdigits2 v - j.
Proof.
  intros Hv Hj.
  destruct (Zdigits2_bounds v Hv) as [Hl Hu].
  assert (Hp := pow2_pos j (proj1 Hj)).
  assert (Hq : 2 ^ (Zdigits2 v - j - 1) <= v / 2 ^ j < 2 ^ (Zdigits2 v - j)).
  { split.
    - apply Z.div_le_lower_bound; [lia | ].
      rewrite <- pow2_add by lia.
      replace (j + (Zdigits2 v - j - 1)) with (Zdigits2 v - 1) by lia. exact Hl.
    - apply Z.div_lt_upper_bound; [lia | ].
      rewrite <- pow2_add by lia.
      replace (j + (Zdigits2 v - j)) with (Zdigits2 v) by lia. exact Hu. }
  apply Zdigits2_unique; [exact Hq | ].
  assert (0 < 2 ^ (Zdigits2 v - j - 1)) by (apply pow2_pos; lia). lia.
Qed.

Lemma rec_of_0 (v : Z) :
  rec_of v 0 = {| shr_m := v; shr_r := false; shr_s := false |}.
Proof.
  unfold rec_of. change (2 ^ 0) with 1. rewrite Z.div_1_r, Z.mod_1_r. reflexivity.
Qed.

Lemma shr_1_arith (m : Z) (r s : bool) :
  0 <= m ->
  shr_1 {| shr_m := m; shr_r := r; shr_s := s |}
  = {| shr_m := m / 2; shr_r := Z.odd m; shr_s := r || s |}.
Proof.
  intros Hm. rewrite <- Z.div2_div.
  destruct m as [ | [p | p | ] | p]; try reflexivity. lia.
Qed.

Lemma shr_1_rec_of (v k : Z) :
  0 <= v -> 0 <= k -> shr_1 (rec_of v k) = rec_of v (k + 1).
Proof.
  intros Hv Hk. unfold rec_of.
  assert (HP := pow2_pos k Hk).
  rewrite shr_1_arith by (apply Z.div_pos; lia).
  rewrite pow2_succ by lia.
  replace (2 * 2 ^ k) with (2 ^ k * 2) by lia.
  rewrite <- Z.div_div by lia.
  rewrite Z.rem_mul_r by lia.
  assert (Hr := Z.mod_pos_bound v (2 ^ k) HP).
  rewrite (Zmod_odd (v / 2 ^ k)).
  set (P := 2 ^ k) in *. set (r := v mod P) in *. set (q := v / P) in *.
  f_equal.
  - destruct (Z.odd q);
      destruct (Z.leb_spec (P * 2) (2 * (r + P * 1)));
      destruct (Z.leb_spec (P * 2) (2 * (r + P * 0))); try reflexivity; lia.
  - destruct (Z.odd q);
      destruct (Z.leb_spec P (2 * r));
      destruct (Z.eqb_spec r 0); destruct (Z.eqb_spec (2 * r) P);
      repeat match goal with
        | |- context [(?a =? ?b)] => destruct (Z.eqb_spec a b)
        end; simpl; try reflexivity; lia.
Qed.

Lemma iter_pos_shr_1 (p : positive) (v k : Z) :
  0 <= v -> 0 <= k ->
  SpecFloat.iter_pos shr_1 p (rec_of v k) = rec_of v (k + Zpos p).
Proof.
  intros Hv. revert k.
  induction p as [p IH | p IH | ]; intros k Hk; cbn [SpecFloat.iter_pos].
  - rewrite shr_1_rec_of, !IH by lia. f_equal. lia.
  - rewrite !IH by lia. f_equal. lia.
  - apply shr_1_rec_of; assumption.
Qed.

Lemma shr_rec_of (v e n : Z) :
  0 <= v -> 0 <= n -> shr (rec_of v 0) e n = (rec_of v n, e + n).
Proof.
  intros Hv Hn. destruct n as [ | p | p]; try lia.
  - simpl. f_equal. lia.
  - simpl shr. now rewrite iter_pos_shr_1 by lia.
Qed.

Lemma RNE_eq (v k : Z) :
  0 <= v -> 0 <= k ->
  RNE v k =
    if 2 ^ k <? 2 * (v mod 2 ^ k) then v / 2 ^ k + 1
    else if 2 ^ k =? 2 * (v mod 2 ^ k)
         then (if Z.even (v / 2 ^ k) then v / 2 ^ k else v / 2 ^ k + 1)
         else v / 2 ^ k.
Proof.
  intros Hv Hk. unfold RNE, rec_of, loc_of_shr_record, round_nearest_even.
  cbn [shr_m shr_r shr_s].
  assert (HP := pow2_pos k Hk).
  assert (Hr := Z.mod_pos_bound v (2 ^ k) HP).
  set (P := 2 ^ k) in *. set (r := v mod P) in *. set (q := v / P) in *.
  destruct (Z.leb_spec P (2 * r)); destruct (Z.eqb_spec r 0);
    destruct (Z.eqb_spec (2 * r) P); destruct (Z.ltb_spec P (2 * r));
    destruct (Z.eqb_spec P (2 * r)); simpl; try reflexivity; lia.
Qed.

Lemma RNE_bounds (v k : Z) :
  0 <= v -> 0 <= k -> v / 2 ^ k <= RNE v k <= v / 2 ^ k + 1.
Proof.
  intros Hv Hk. rewrite RNE_eq by assumption.
  destruct (_ <? _); [lia | ]. destruct (_ =? _); [ | lia].
  destruct (Z.even _); lia.
Qed.

Lemma RNE_exact (n k : Z) : 0 <= n -> 0 <= k -> RNE (n * 2 ^ k) k = n.
Proof.
  intros Hn Hk. assert (HP := pow2_pos k Hk).
  rewrite RNE_eq by nia.
  rewrite Z.mod_mul, Z.div_mul by lia.
  destruct (Z.ltb_spec (2 ^ k) (2 * 0)); [lia | ].
  destruct (Z.eqb_spec (2 ^ k) (2 * 0)); [lia | reflexivity].
Qed.

Lemma RNE_mono (v w k : Z) :
  0 <= v <= w -> 0 <= k -> RNE v k <= RNE w k.
Proof.
  intros [Hv Hvw] Hk. rewrite !RNE_eq by lia.
  assert (HP := pow2_pos k Hk).
  assert (Hrv := Z.mod_pos_bound v (2 ^ k) HP).
  assert (Hrw := Z.mod_pos_bound w (2 ^ k) HP).
  assert (Hdv := Z.div_mod v (2 ^ k) ltac:(lia)).
  assert (Hdw := Z.div_mod w (2 ^ k) ltac:(lia)).
  set (P := 2 ^ k) in *.
  set (rv := v mod P) in *. set (qv := v / P) in *.
  set (rw := w mod P) in *. set (qw := w / P) in *.
  assert (Hq : qv < qw \/ (qv = qw /\ rv <= rw)) by nia.
  destruct Hq as [Hq | [Hq Hr]].
  - destruct (P <? 2 * rv), (P =? 2 * rv), (Z.even qv),
      (P <? 2 * rw), (P =? 2 * rw), (Z.even qw); lia.
  - rewrite Hq.
    destruct (Z.ltb_spec P (2 * rv)); destruct (Z.eqb_spec P (2 * rv));
      destruct (Z.ltb_spec P (2 * rw)); destruct (Z.eqb_spec P (2 * rw));
      destruct (Z.even qw); lia.
Qed.

Lemma RNE_le (v n k : Z) :
  0 <= v -> 0 <= n -> 0 <= k -> v <= n * 2 ^ k -> RNE v k <= n.
Proof.
  intros Hv Hn Hk H. rewrite <- (RNE_exact n k) by assumption.
  apply RNE_mono; lia.
Qed.

Lemma RNE_ge (v n k : Z) :
  0 <= n -> 0 <= k -> n * 2 ^ k <= v -> n <= RNE v k.
Proof.
  intros Hn Hk H. rewrite <- (RNE_exact n k) at 1 by assumption.
  assert (HP := pow2_pos k Hk). apply RNE_mono; nia.
Qed.

(** Rounding does not depend on the unit the value is written in. *)

Lemma RNE_scale (v j k : Z) :
  0 <= v -> 0 <= j -> 0 <= k -> RNE (v * 2 ^ j) (k + j) = RNE v k.
Proof.
  intros Hv Hj Hk.
  assert (HJ := pow2_pos j Hj). assert (HK := pow2_pos k Hk).
  rewrite !RNE_eq by nia.
  rewrite pow2_add by lia.
  rewrite Z.div_mul_cancel_r by lia.
  rewrite Z.mul_mod_distr_r by lia.
  set (P := 2 ^ k) in *. set (J := 2 ^ j) in *.
  set (r := v mod P) in *. set (q := v / P) in *.
  destruct (Z.ltb_spec (P * J) (2 * (r * J))); destruct (Z.ltb_spec P (2 * r));
    try nia; try reflexivity.
  destruct (Z.eqb_spec (P * J) (2 * (r * J))); destruct (Z.eqb_spec P (2 * r));
    try nia; reflexivity.
Qed.

Lemma fexp64 (x : Z) : fexp prec emax x = Z.max (x - 53) (-1074).
Proof. reflexivity. Qed.

(** Rounding a value written in units of [2 ^ -1125]. *)

Lemma quantum_nonneg (V : Z) : 0 <= quantum V.
Proof. unfold quantum. lia. Qed.

Lemma round_value_0 : round_value 0 = 0.
Proof. reflexivity. Qed.

Lemma round_value_nonneg (V : Z) : 0 <= V -> 0 <= round_value V.
Proof.
  intros HV. unfold round_value.
  assert (HK := quantum_nonneg V). assert (HP := pow2_pos _ HK).
  assert (H := RNE_bounds V (quantum V) HV HK).
  assert (0 <= V / 2 ^ quantum V) by (apply Z.div_pos; lia). nia.
Qed.

Lemma round_value_mono (V W : Z) : 0 <= V <= W -> round_value V <= round_value W.
Proof.
  intros [HV HVW].
  destruct (Z.eq_dec V 0) as [-> | HV0].
  { rewrite round_value_0. apply round_value_nonneg. lia. }
  assert (Hd : Zdigits2 V <= Zdigits2 W) by (apply Zdigits2_mono; lia).
  assert (HKV := quantum_nonneg V). assert (HKW := quantum_nonneg W).
  assert (HPV := pow2_pos _ HKV). assert (HPW := pow2_pos _ HKW).
  destruct (Z.eq_dec (quantum V) (quantum W)) as [HK | HK].
  - unfold round_value. rewrite HK.
    assert (H := RNE_mono V W (quantum W) ltac:(lia) HKW). nia.
  - assert (HKlt : quantum V < quantum W) by (unfold quantum in *; lia).
    assert (HKW' : quantum W = Zdigits2 W - 53) by (unfold quantum in *; lia).
    destruct (Zdigits2_bounds V ltac:(lia)) as [_ HuV].
    destruct (Zdigits2_bounds W ltac:(lia)) as [HlW _].
    (* round_value W >= 2^(dW-1) *)
    assert (HW : 2 ^ (Zdigits2 W - 1) <= round_value W).
    { unfold round_value.
      assert (H : 2 ^ 52 <= RNE W (quantum W)).
      { assert (2 ^ 52 * 2 ^ quantum W <= W).
        { rewrite <- pow2_add by lia.
          replace (52 + quantum W) with (Zdigits2 W - 1) by lia. exact HlW. }
        apply RNE_ge; [lia | assumption | assumption]. }
      replace (Zdigits2 W - 1) with (52 + quantum W) by lia.
      rewrite pow2_add by lia. nia. }
    (* round_value V <= 2^max(dV, KV) *)
    set (t := Z.max (Zdigits2 V) (quantum V)).
    assert (HVt : round_value V <= 2 ^ t).
    { unfold round_value.
      assert (H : RNE V (quantum V) <= 2 ^ (t - quantum V)).
      { assert (0 <= 2 ^ (t - quantum V)) by (apply Z.lt_le_incl, pow2_pos; lia).
        assert (V <= 2 ^ (t - quantum V) * 2 ^ quantum V).
        { rewrite <- pow2_add by lia.
          replace (t - quantum V + quantum V) with t by lia.
          assert (2 ^ Zdigits2 V <= 2 ^ t).
          { apply pow2_le.
            assert (0 < Zdigits2 V) by (apply Zdigits2_pos; lia). lia. }
          lia. }
        apply RNE_le; assumption. }
      assert (Ht : 2 ^ t = 2 ^ (t - quantum V) * 2 ^ quantum V).
      { rewrite <- pow2_add by lia. f_equal. lia. }
      rewrite Ht. nia. }
    assert (2 ^ t <= 2 ^ (Zdigits2 W - 1)).
    { apply pow2_le. unfold quantum in *. lia. }
    lia.
Qed.

(** After the first shift and the rounding, the second shift is by zero or
    one place and loses nothing. *)

Lemma second_shift (m : positive) (e : Z) :
  let k := fexp prec emax (Zdigits2 (Zpos m) + e) - e in
  let M := RNE (Zpos m) k in
  let k2 := fexp prec emax (Zdigits2 M + (e + k)) - (e + k) in
  0 <= k -> 0 < M -> 0 <= k2 /\ M mod 2 ^ k2 = 0.
Proof.
  intros k M k2 Hk HM.
  assert (Hm : 0 < Zpos m) by lia.
  destruct (Zdigits2_bounds (Zpos m) Hm) as [Hl Hu].
  assert (Hd := Zdigits2_pos (Zpos m) Hm).
  assert (HM' := RNE_bounds (Zpos m) k ltac:(lia) Hk). fold M in HM'.
  assert (HP := pow2_pos k Hk).
  unfold k2. rewrite fexp64. unfold k in *. rewrite fexp64 in *.
  set (d := Zdigits2 (Zpos m)) in *.
  set (k' := Z.max (d + e - 53) (-1074) - e) in *.
  destruct (Z.le_gt_cases d k') as [Hdk | Hdk].
  - (* the quotient is zero *)
    assert (Hq : Zpos m / 2 ^ k' = 0).
    { apply Z.div_small. split; [lia | ].
      assert (2 ^ d <= 2 ^ k') by (apply pow2_le; lia). lia. }
    assert (HM1 : M = 1) by lia.
    rewrite HM1. change (Zdigits2 1) with 1.
    replace (Z.max (1 + (e + k') - 53) (-1074) - (e + k')) with 0 by lia.
    split; [lia | apply Z.mod_1_r].
  - assert (Hq : Zdigits2 (Zpos m / 2 ^ k') = d - k')
      by (apply Zdigits2_div_pow2; lia).
    assert (Hq0 : 0 < Zpos m / 2 ^ k').
    { apply Z.div_str_pos. split; [lia | ].
      assert (2 ^ k' <= 2 ^ (d - 1)) by (apply pow2_le; lia). lia. }
    destruct (Zdigits2_bounds _ Hq0) as [Hlq Huq]. rewrite Hq in Hlq, Huq.
    destruct (Z.lt_ge_cases M (2 ^ (d - k'))) as [Hlt | Hge].
    + assert (HdM : Zdigits2 M = d - k') by (apply Zdigits2_unique; lia).
      rewrite HdM.
      replace (Z.max (d - k' + (e + k') - 53) (-1074) - (e + k')) with 0 by lia.
      split; [lia | apply Z.mod_1_r].
    + assert (HMeq : M = 2 ^ (d - k')) by lia.
      assert (HdM : Zdigits2 M = d - k' + 1).
      { apply Zdigits2_unique; [ | lia].
        replace (d - k' + 1 - 1) with (d - k') by lia.
        rewrite pow2_succ by lia. lia. }
      rewrite HdM.
      set (k3 := Z.max (d - k' + 1 + (e + k') - 53) (-1074) - (e + k')).
      assert (Hk3 : k3 = 0 \/ k3 = 1) by lia.
      destruct Hk3 as [-> | ->]; split; try lia.
      * apply Z.mod_1_r.
      * rewrite HMeq. replace (d - k') with (d - k' - 1 + 1) by lia.
        rewrite pow2_succ by lia. change (2 ^ 1) with 2.
        rewrite Z.mul_comm. apply Z.mod_mul. lia.
Qed.

(** What [binary_round_aux] returns for an exact positive input whose
    exponent does not exceed the one of its format. *)

Lemma binary_round_aux_spec (s : bool) (m : positive) (e : Z) :
  let k := fexp prec emax (Zdigits2 (Zpos m) + e) - e in
  let M := RNE (Zpos m) k in
  0 <= k ->
  match binary_round_aux prec emax s (Zpos m) e loc_Exact with
  | S754_zero s' => s' = s /\ M = 0
  | S754_finite s' m2 e2 =>
      s' = s /\ e + k <= e2 /\ Zpos m2 * 2 ^ (e2 - (e + k)) = M /\ e2 <= 971
  | S754_infinity s' => s' = s /\ 0 < M /\ 1025 <= Zdigits2 M + (e + k)
  | S754_nan => False
  end.
Proof.
  intros k M Hk.
  assert (H2 := second_shift m e). cbv zeta in H2. fold k in H2. fold M in H2.
  unfold binary_round_aux, shr_fexp.
  change (shr_record_of_loc (Zpos m) loc_Exact)
    with {| shr_m := Zpos m; shr_r := false; shr_s := false |}.
  rewrite <- rec_of_0. fold k. rewrite shr_rec_of by lia.
  change (round_nearest_even (shr_m (rec_of (Zpos m) k))
            (loc_of_shr_record (rec_of (Zpos m) k))) with M.
  change (shr_record_of_loc M loc_Exact)
    with {| shr_m := M; shr_r := false; shr_s := false |}.
  rewrite <- rec_of_0.
  assert (HM0 : 0 <= M).
  { assert (HM' := RNE_bounds (Zpos m) k ltac:(lia) Hk). fold M in HM'.
    assert (0 <= Zpos m / 2 ^ k) by (apply Z.div_pos; [lia | apply pow2_pos; lia]).
    lia. }
  destruct (Z.eq_dec M 0) as [HMz | HMnz].
  - rewrite HMz.
    set (k2 := fexp prec emax (Zdigits2 0 + (e + k)) - (e + k)).
    destruct k2 as [ | p | p]; simpl shr; try (split; reflexivity).
    rewrite iter_pos_shr_1 by lia. unfold rec_of; cbn [shr_m].
    rewrite Z.div_0_l by (assert (0 < 2 ^ (0 + Z.pos p)) by (apply pow2_pos; lia); lia).
    split; reflexivity.
  - destruct (H2 Hk ltac:(lia)) as [Hk2 Hdiv].
    set (k2 := fexp prec emax (Zdigits2 M + (e + k)) - (e + k)) in *.
    rewrite shr_rec_of by lia. unfold rec_of at 1; cbn [shr_m].
    assert (HP2 := pow2_pos k2 Hk2).
    assert (Hex : M = M / 2 ^ k2 * 2 ^ k2).
    { rewrite Z.mul_comm. apply Z_div_exact_full_2; lia. }
    assert (Hpos : 0 < M / 2 ^ k2) by nia.
    destruct (M / 2 ^ k2) as [ | m2 | m2] eqn:Em2; try lia.
    change (emax - prec) with 971.
    destruct (Z.leb_spec (e + k + k2) 971) as [He2 | He2].
    + repeat split; try lia.
      replace (e + k + k2 - (e + k)) with k2 by lia. lia.
    + repeat split; try lia.
      unfold k2 in He2. rewrite fexp64 in He2. lia.
Qed.

(** Values of binary64 numbers, in units of [2 ^ -1125]. *)

Lemma bounded_spec (m : positive) (e : Z) :
  bounded prec emax m e = true ->
  -1074 <= e <= 971 /\ Zdigits2 (Zpos m) <= 53 /\
  (-1074 < e -> Zdigits2 (Zpos m) = 53).
Proof.
  unfold bounded, canonical_mantissa. rewrite fexp64.
  change (emax - prec) with 971.
  intros H. apply andb_prop in H. destruct H as [H1 H2].
  apply Z.eqb_eq in H1. apply Z.leb_le in H2.
  change (Z.pos (digits2_pos m)) with (Zdigits2 (Zpos m)) in H1. lia.
Qed.

(** A valid finite number lies strictly between the infinities. *)

Lemma finite_below_overflow (m : positive) (e : Z) :
  bounded prec emax m e = true ->
  0 < Zpos m * 2 ^ (e + 1125) < overflow_value.
Proof.
  intros Hb. destruct (bounded_spec m e Hb) as (He & Hd & _).
  destruct (Zdigits2_bounds (Zpos m) ltac:(lia)) as [_ Hu].
  assert (HP := pow2_pos (e + 1125) ltac:(lia)).
  split; [nia | ].
  assert (2 ^ Zdigits2 (Zpos m) <= 2 ^ 53).
  { apply pow2_le. assert (0 < Zdigits2 (Zpos m)) by (apply Zdigits2_pos; lia). lia. }
  assert (2 ^ (e + 1125) <= 2 ^ 2096) by (apply pow2_le; lia).
  assert (Hover : overflow_value = 2 ^ 53 * 2 ^ 2096) by reflexivity.
  assert (0 < 2 ^ 53) by (apply pow2_pos; lia).
  rewrite Hover.
  generalize dependent (2 ^ 53). generalize dependent (2 ^ 2096).
  generalize dependent (2 ^ (e + 1125)).
  intros. nia.
Qed.

(** On valid finite numbers of one sign, the order by exponent then
    mantissa is the order of the values. *)

Lemma finite_compare (m1 m2 : positive) (e1 e2 : Z) :
  bounded prec emax m1 e1 = true -> bounded prec emax m2 e2 = true ->
  match e1 ?= e2 with
  | Lt => Lt
  | Gt => Gt
  | Eq => Pos.compare_cont Eq m1 m2
  end = (Zpos m1 * 2 ^ (e1 + 1125) ?= Zpos m2 * 2 ^ (e2 + 1125)).
Proof.
  intros Hb1 Hb2.
  destruct (bounded_spec m1 e1 Hb1) as (He1 & Hd1 & Hn1).
  destruct (bounded_spec m2 e2 Hb2) as (He2 & Hd2 & Hn2).
  destruct (Zdigits2_bounds (Zpos m1) ltac:(lia)) as [Hl1 Hu1].
  destruct (Zdigits2_bounds (Zpos m2) ltac:(lia)) as [Hl2 Hu2].
  assert (Hlt : forall (ma mb : positive) (ea eb : Z),
             -1074 <= ea -> ea < eb ->
             Zpos ma < 2 ^ 53 -> 2 ^ 52 <= Zpos mb ->
             Zpos ma * 2 ^ (ea + 1125) < Zpos mb * 2 ^ (eb + 1125)).
  { intros ma mb ea eb Ha Hab Hma Hmb.
    assert (HPa := pow2_pos (ea + 1125) ltac:(lia)).
    assert (Hstep : 2 * 2 ^ (ea + 1125) <= 2 ^ (eb + 1125)).
    { rewrite <- pow2_succ by lia. apply pow2_le. lia. }
    change (2 ^ 53) with (2 * 2 ^ 52) in Hma.
    assert (0 < 2 ^ 52) by (apply pow2_pos; lia).
    nia. }
  assert (H53 : forall m : positive, Zdigits2 (Zpos m) <= 53 -> Zpos m < 2 ^ 53).
  { intros m Hd. destruct (Zdigits2_bounds (Zpos m) ltac:(lia)) as [_ Hu].
    assert (2 ^ Zdigits2 (Zpos m) <= 2 ^ 53).
    { apply pow2_le. assert (0 < Zdigits2 (Zpos m)) by (apply Zdigits2_pos; lia). lia. }
    lia. }
  destruct (Z.compare_spec e1 e2) as [Heq | Hlt12 | Hgt12]; symmetry.
  - subst e2. change (Pos.compare_cont Eq m1 m2) with (Zpos m1 ?= Zpos m2).
    assert (HP := pow2_pos (e1 + 1125) ltac:(lia)).
    destruct (Z.compare_spec (Zpos m1) (Zpos m2)) as [E | E | E].
    + rewrite E. apply Z.compare_refl.
    + apply Z.compare_lt_iff. nia.
    + apply Z.compare_gt_iff. nia.
  - apply Z.compare_lt_iff. apply Hlt; try lia.
    + now apply H53.
    + rewrite Hn2 in Hl2 by lia. exact Hl2.
  - apply Z.compare_gt_iff. apply Hlt; try lia.
    + now apply H53.
    + rewrite Hn1 in Hl1 by lia. exact Hl1.
Qed.

(** [SFcompare] on valid numbers compares their values. *)

Lemma SFcompare_value_of (x y : spec_float) :
  valid_binary x = true -> valid_binary y = true ->
  is_number x = true -> is_number y = true ->
  SFcompare x y = Some (value_of x ?= value_of y).
Proof.
  assert (HB : 0 < overflow_value) by reflexivity.
  destruct x as [sx | sx | | sx mx ex], y as [sy | sy | | sy my ey];
    try discriminate; simpl valid_binary; intros Hx Hy _ _;
    try (pose proof (finite_below_overflow mx ex Hx) as Hfx);
    try (pose proof (finite_below_overflow my ey Hy) as Hfy);
    unfold value_of, SFcompare;
    try destruct sx; try destruct sy; unfold cond_Zopp;
    try (rewrite (finite_compare mx my ex ey Hx Hy));
    try reflexivity; f_equal; symmetry;
    try (apply Z.compare_lt_iff; lia);
    try (apply Z.compare_gt_iff; lia);
    try (apply Z.compare_eq_iff; lia).
  - (* both negative *)
    rewrite Z.compare_opp, <- (finite_compare my mx ey ex Hy Hx).
    rewrite (Z.compare_antisym ey ex).
    destruct (ey ?= ex); try reflexivity. simpl.
    now rewrite Pos.compare_cont_antisym.
Qed.

Lemma SFleb_value_of (x y : spec_float) :
  valid_binary x = true -> valid_binary y = true ->
  SFleb x y = true <->
  (is_number x = true /\ is_number y = true /\ value_of x <= value_of y).
Proof.
  intros Hx Hy. unfold SFleb.
  destruct (is_number x) eqn:Nx; [destruct (is_number y) eqn:Ny | ].
  - rewrite (SFcompare_value_of x y Hx Hy Nx Ny).
    destruct (Z.compare_spec (value_of x) (value_of y)) as [E | E | E]; split;
      try discriminate; try (intros _; repeat split; lia).
    intros (_ & _ & H). lia.
  - destruct y; try discriminate. destruct x; simpl; split;
      try discriminate; intros (_ & ? & _); discriminate.
  - destruct x; try discriminate. simpl. split; try discriminate.
    intros (? & _); discriminate.
Qed.

Lemma overflow_value_pos : 0 < overflow_value.
Proof. reflexivity. Qed.

Lemma round_overflow_nonneg (V : Z) : 0 <= V -> 0 <= round_overflow V.
Proof.
  intros HV. unfold round_overflow.
  assert (H := round_value_nonneg V HV). assert (HB := overflow_value_pos). lia.
Qed.

Lemma round_overflow_mono (V W : Z) : 0 <= V <= W -> round_overflow V <= round_overflow W.
Proof.
  intros H. unfold round_overflow. assert (HR := round_value_mono V W H). lia.
Qed.

Lemma round_signed_mono (z w : Z) : z <= w -> round_signed z <= round_signed w.
Proof.
  intros H. unfold round_signed.
  destruct (Z.leb_spec 0 z) as [Hz | Hz], (Z.leb_spec 0 w) as [Hw | Hw];
    try lia.
  - apply round_overflow_mono. lia.
  - assert (Ha := round_overflow_nonneg (- z) ltac:(lia)).
    assert (Hb := round_overflow_nonneg w ltac:(lia)). lia.
  - assert (Ha := round_overflow_mono (- w) (- z) ltac:(lia)). lia.
Qed.

Lemma round_signed_cond_Zopp (s : bool) (V : Z) :
  0 < V -> round_signed (cond_Zopp s V) = cond_Zopp s (round_overflow V).
Proof.
  intros HV. unfold round_signed. destruct s; simpl.
  - destruct (Z.leb_spec 0 (- V)); [lia | ]. now rewrite Z.opp_involutive.
  - destruct (Z.leb_spec 0 V); [reflexivity | lia].
Qed.

(** The value [binary_round_aux] returns is the rounded value. *)

Lemma binary_round_aux_value (s : bool) (m : positive) (e : Z) :
  0 <= e + 1125 ->
  0 <= fexp prec emax (Zdigits2 (Zpos m) + e) - e ->
  valid_binary (binary_round_aux prec emax s (Zpos m) e loc_Exact) = true ->
  is_number (binary_round_aux prec emax s (Zpos m) e loc_Exact) = true /\
  value_of (binary_round_aux prec emax s (Zpos m) e loc_Exact)
  = cond_Zopp s (round_overflow (Zpos m * 2 ^ (e + 1125))).
Proof.
  intros He Hk Hvalid.
  assert (Hspec := binary_round_aux_spec s m e). cbv zeta in Hspec.
  specialize (Hspec Hk).
  set (k := fexp prec emax (Zdigits2 (Zpos m) + e) - e) in *.
  set (M := RNE (Zpos m) k) in *.
  set (V := Zpos m * 2 ^ (e + 1125)).
  assert (HPj := pow2_pos (e + 1125) He).
  assert (HV : 0 < V) by (unfold V; nia).
  assert (HK : quantum V = k + (e + 1125)).
  { unfold quantum, V. rewrite Zdigits2_mul_pow2 by lia.
    unfold k. rewrite fexp64. lia. }
  assert (HR : round_value V = M * 2 ^ (k + (e + 1125))).
  { unfold round_value. rewrite HK. unfold V.
    rewrite RNE_scale by lia. reflexivity. }
  assert (HB := overflow_value_pos).
  fold V. clearbody V M k.
  destruct (binary_round_aux prec emax s (Zpos m) e loc_Exact)
    as [s' | s' | | s' m2 e2].
  - destruct Hspec as [-> HM]. split; [reflexivity | ].
    unfold round_overflow. rewrite HR, HM. simpl value_of.
    rewrite Z.mul_0_l, Z.min_l by lia. now destruct s.
  - destruct Hspec as (-> & HM & Hd). split; [reflexivity | ].
    simpl value_of. f_equal. unfold round_overflow. rewrite Z.min_r; [reflexivity | ].
    rewrite HR.
    destruct (Zdigits2_bounds M HM) as [Hl _].
    assert (HdM := Zdigits2_pos M HM).
    assert (Hle : 2 ^ 2149 <= 2 ^ (Zdigits2 M - 1 + (k + (e + 1125)))).
    { apply pow2_le. clear - Hd HdM He Hk. lia. }
    rewrite pow2_add in Hle by (clear - Hd HdM He Hk; lia).
    assert (HP := pow2_pos (k + (e + 1125)) ltac:(lia)).
    fold overflow_value in Hle.
    generalize dependent (2 ^ (k + (e + 1125))).
    generalize dependent (2 ^ (Zdigits2 M - 1)). intros. nia.
  - contradiction.
  - destruct Hspec as (-> & He2 & Hm2 & _). split; [reflexivity | ].
    simpl value_of. f_equal.
    destruct (finite_below_overflow m2 e2 Hvalid) as [_ Hlt].
    assert (Heq : Zpos m2 * 2 ^ (e2 + 1125) = round_value V).
    { rewrite HR, <- Hm2.
      replace (e2 + 1125) with (e2 - (e + k) + (k + (e + 1125))) by lia.
      rewrite pow2_add by lia. lia. }
    unfold round_overflow. rewrite <- Heq.
    symmetry. apply Z.min_l. apply Z.lt_le_incl. exact Hlt.
Qed.

Lemma iter_xO (p d : positive) : Zpos (Pos.iter xO p d) = Zpos p * 2 ^ Zpos d.
Proof.
  induction d as [ | d IH] using Pos.peano_ind.
  - simpl. lia.
  - rewrite Pos.iter_succ, Pos2Z.inj_succ, Pos2Z.inj_xO, IH.
    unfold Z.succ. rewrite pow2_succ by lia. lia.
Qed.

Lemma shl_align_spec (m : positive) (e e' : Z) :
  snd (shl_align m e e') = Z.min e e' /\
  Zpos (fst (shl_align m e e')) = Zpos m * 2 ^ (e - Z.min e e').
Proof.
  unfold shl_align. destruct (e' - e) as [ | d | d] eqn:Ed; cbn [fst snd].
  - replace (Z.min e e') with e by lia. rewrite Z.sub_diag.
    split; [reflexivity | ]. change (2 ^ 0) with 1. lia.
  - replace (Z.min e e') with e by lia. rewrite Z.sub_diag.
    split; [reflexivity | ]. change (2 ^ 0) with 1. lia.
  - replace (Z.min e e') with e' by lia. split; [reflexivity | ].
    rewrite iter_xO. f_equal. f_equal. lia.
Qed.

Lemma binary_round_value (s : bool) (p : positive) (e : Z) :
  0 <= e + 1125 ->
  valid_binary (binary_round prec emax s p e) = true ->
  is_number (binary_round prec emax s p e) = true /\
  value_of (binary_round prec emax s p e)
  = cond_Zopp s (round_overflow (Zpos p * 2 ^ (e + 1125))).
Proof.
  intros He. unfold binary_round.
  set (f := fexp prec emax (Zpos (digits2_pos p) + e)).
  destruct (shl_align_spec p e f) as [Hez Hmz].
  destruct (shl_align p e f) as [mz ez]. cbn [fst snd] in Hez, Hmz.
  assert (Hf : f = Z.max (Zdigits2 (Zpos p) + e - 53) (-1074)) by reflexivity.
  assert (HP := pow2_pos (e - ez) ltac:(lia)).
  assert (Hd : Zdigits2 (Zpos mz) = Zdigits2 (Zpos p) + (e - ez)).
  { rewrite Hmz, Hez. apply Zdigits2_mul_pow2; lia. }
  assert (HV : Zpos mz * 2 ^ (ez + 1125) = Zpos p * 2 ^ (e + 1125)).
  { rewrite Hmz, <- Hez.
    replace (e + 1125) with (e - ez + (ez + 1125)) by lia.
    rewrite (pow2_add (e - ez)) by lia. lia. }
  intros Hvalid. rewrite <- HV.
  apply binary_round_aux_value; try assumption; try lia.
  rewrite fexp64, Hd. lia.
Qed.

Lemma SFmul_three_value (x : spec_float) :
  valid_binary x = true -> is_number x = true ->
  valid_binary (SF64mul x three) = true ->
  is_number (SF64mul x three) = true /\
  value_of (SF64mul x three) = round_signed (3 * value_of x).
Proof.
  destruct x as [sx | sx | | sx mx ex]; try discriminate;
    intros Hx _ Hvalid.
  - split; reflexivity.
  - split; [reflexivity | ]. destruct sx; vm_compute; reflexivity.
  - unfold SF64mul, SFmul, three in *.
    destruct (bounded_spec mx ex Hx) as (He & _ & _).
    assert (H3 : Zpos (mx * 6755399441055744) = 3 * (Zpos mx * 2 ^ 51))
      by (rewrite Pos2Z.inj_mul; change (2 ^ 51) with 2251799813685248; lia).
    assert (Hd : 53 <= Zdigits2 (Zpos (mx * 6755399441055744))).
    { change 53 with (Zdigits2 6755399441055744).
      apply Zdigits2_mono. lia. }
    destruct (binary_round_aux_value (xorb sx false) (mx * 6755399441055744)
                (ex + -51) ltac:(lia) ltac:(rewrite fexp64; lia) Hvalid)
      as [Hn Hv].
    split; [exact Hn | ]. rewrite Hv.
    assert (HP := pow2_pos (ex + 1125) ltac:(lia)).
    assert (HV : Zpos (mx * 6755399441055744) * 2 ^ (ex + -51 + 1125)
                 = 3 * (Zpos mx * 2 ^ (ex + 1125))).
    { rewrite H3. replace (ex + 1125) with (51 + (ex + -51 + 1125)) by lia.
      rewrite (pow2_add 51) by lia. ring. }
    rewrite HV. rewrite xorb_false_r. cbn [value_of].
    rewrite <- round_signed_cond_Zopp by nia. f_equal.
    destruct sx; cbn [cond_Zopp]; ring.
Qed.

Lemma SFadd_eight_value (y : spec_float) :
  valid_binary y = true -> is_number y = true ->
  valid_binary (SF64add eight y) = true ->
  is_number (SF64add eight y) = true /\
  value_of (SF64add eight y) = round_signed (value_of eight + value_of y).
Proof.
  destruct y as [sy | sy | | sy my ey]; try discriminate;
    intros Hy _ Hvalid.
  - split; [reflexivity | ]. vm_compute. reflexivity.
  - split; [reflexivity | ]. destruct sy; vm_compute; reflexivity.
  - unfold SF64add, SFadd, eight in *.
    destruct (bounded_spec my ey Hy) as (He & _ & _).
    set (ez := Z.min (-49) ey) in *.
    destruct (shl_align_spec 4503599627370496 (-49) ez) as [_ Ha].
    destruct (shl_align_spec my ey ez) as [_ Hb].
    replace (Z.min (-49) ez) with ez in Ha by lia.
    replace (Z.min ey ez) with ez in Hb by lia.
    set (a := Zpos (fst (shl_align 4503599627370496 (-49) ez))) in *.
    set (b := Zpos (fst (shl_align my ey ez))) in *.
    assert (HPz := pow2_pos (ez + 1125) ltac:(lia)).
    assert (HVa : a * 2 ^ (ez + 1125) = 4503599627370496 * 2 ^ (-49 + 1125)).
    { rewrite Ha.
      replace (-49 + 1125) with (-49 - ez + (ez + 1125)) by lia.
      rewrite (pow2_add (-49 - ez)) by lia. ring. }
    assert (HVb : b * 2 ^ (ez + 1125) = Zpos my * 2 ^ (ey + 1125)).
    { rewrite Hb.
      replace (ey + 1125) with (ey - ez + (ez + 1125)) by lia.
      rewrite (pow2_add (ey - ez)) by lia. ring. }
    assert (HZ : (a + cond_Zopp sy b) * 2 ^ (ez + 1125)
                 = value_of (S754_finite false 4503599627370496 (-49))
                   + value_of (S754_finite sy my ey)).
    { cbn [value_of]. rewrite <- HVb.
      change (cond_Zopp false (4503599627370496 * 2 ^ (-49 + 1125)))
        with (4503599627370496 * 2 ^ (-49 + 1125)).
      rewrite <- HVa. destruct sy; cbn [cond_Zopp]; ring. }
    cbn [cond_Zopp] in Hvalid |- *.
    fold a in Hvalid |- *. fold b in Hvalid |- *.
    rewrite <- HZ.
    unfold binary_normalize in *.
    destruct (a + cond_Zopp sy b) as [ | p | p] eqn:Ez.
    + split; reflexivity.
    + destruct (binary_round_value false p ez ltac:(lia) Hvalid) as [Hn Hv].
      split; [exact Hn | ]. rewrite Hv. cbn [cond_Zopp].
      unfold round_signed. destruct (Z.leb_spec 0 (Zpos p * 2 ^ (ez + 1125)));
        [reflexivity | nia].
    + destruct (binary_round_value true p ez ltac:(lia) Hvalid) as [Hn Hv].
      split; [exact Hn | ]. rewrite Hv. cbn [cond_Zopp].
      unfold round_signed. destruct (Z.leb_spec 0 (Zneg p * 2 ^ (ez + 1125)));
        [nia | ].
      f_equal. f_equal. lia.
Qed.

End Binary64Rounding.

Lemma Prim2SF_3 : Prim2SF 3%float = three.
Proof. vm_compute. reflexivity. Qed.

Lemma Prim2SF_8 : Prim2SF 8%float = eight.
Proof. vm_compute. reflexivity. Qed.

Lemma leb_value_of (x y : float) :
  (x <=? y)%float = true <->
  (is_number (Prim2SF x) = true /\ is_number (Prim2SF y) = true /\
   (value_of (Prim2SF x) <= value_of (Prim2SF y))%Z).
Proof.
  rewrite FloatAxioms.leb_spec.
  apply SFleb_value_of; apply Prim2SF_valid.
Qed.

(** The product with 3 is the exact product, rounded. *)
Lemma mul_3_value (x : float) :
  is_number (Prim2SF x) = true ->
  is_number (Prim2SF (x * 3)%float) = true /\
  value_of (Prim2SF (x * 3)%float)
  = round_signed (3 * value_of (Prim2SF x))%Z.
Proof.
  intros Hx.
  assert (Hvalid := Prim2SF_valid (x * 3)%float).
  rewrite FloatAxioms.mul_spec, Prim2SF_3 in Hvalid |- *.
  apply SFmul_three_value; auto. apply Prim2SF_valid.
Qed.

(** The sum with 8 is the exact sum, rounded. *)
Lemma add_8_value (y : float) :
  is_number (Prim2SF y) = true ->
  is_number (Prim2SF (8 + y)%float) = true /\
  value_of (Prim2SF (8 + y)%float)
  = round_signed (value_of eight + value_of (Prim2SF y))%Z.
Proof.
  intros Hy.
  assert (Hvalid := Prim2SF_valid (8 + y)%float).
  rewrite FloatAxioms.add_spec, Prim2SF_8 in Hvalid |- *.
  apply SFadd_eight_value; auto. apply Prim2SF_valid.
Qed.

(** [8 + m * 3] never decreases when [m] grows. *)
Lemma size_mono (x y : float) :
  (x <=? y)%float = true -> (8 + x * 3 <=? 8 + y * 3)%float = true.
Proof.
  rewrite !leb_value_of. intros (Hx & Hy & Hxy).
  destruct (mul_3_value x Hx) as [Hx3 Vx3].
  destruct (mul_3_value y Hy) as [Hy3 Vy3].
  destruct (add_8_value (x * 3)%float Hx3) as [Hx8 Vx8].
  destruct (add_8_value (y * 3)%float Hy3) as [Hy8 Vy8].
  split; [exact Hx8 | split; [exact Hy8 | ]].
  rewrite Vx8, Vy8, Vx3, Vy3.
  apply round_signed_mono. apply Z.add_le_mono_l.
  apply round_signed_mono. lia.
Qed.

(** ** The marker size *)

Lemma markerSize_grows_on_scale :
  grows_on_scale (fun m : float => markerSize (JsNumber m)) = true.
Proof. vm_compute. reflexivity. Qed.

Lemma hundredths_grow_on_scale : grows_on_scale (fun m : float => m) = true.
Proof. vm_compute. reflexivity. Qed.

Lemma scale_In (c : Z) : (-100 <= c <= 1000)%Z -> In c scale.
Proof.
  intros Hc. unfold scale. apply in_map_iff.
  exists (Z.to_nat (c + 100)). split; [lia | ].
  apply in_seq. lia.
Qed.

Lemma grows_on_scale_spec (size : float -> float) :
  grows_on_scale size = true ->
  forall j k : Z,
    (-100 <= j)%Z -> (j < k)%Z -> (k <= 1000)%Z ->
    (size (hundredths j) <? size (hundredths k))%float = true.
Proof.
  unfold grows_on_scale. intros H j k Hj Hjk Hk.
  rewrite forallb_forall in H.
  assert (Hrow := H j (scale_In j (conj Hj (Z.le_trans _ _ _ (Z.lt_le_incl _ _ Hjk) Hk)))).
  rewrite forallb_forall in Hrow.
  assert (Hcell := Hrow k (scale_In k (conj (Z.le_trans _ _ _ Hj (Z.lt_le_incl _ _ Hjk)) Hk))).
  rewrite (proj2 (Z.ltb_lt j k) Hjk) in Hcell. exact Hcell.
Qed.

(** C9, as the code has it.  The icon's [width] and [height] are both the
    number [8 + mag * 3] followed by [px], the product and the sum being
    those of binary64 numbers, each rounded to nearest.  The size never
    decreases when the magnitude grows, and over the magnitudes of two
    decimals from -1.00 to 10.00 it grows strictly with the magnitude. *)
Theorem marker_size (mag : JsValue) :
  markerSize mag = (8 + ToNumber mag * 3)%float /\
  html (createMarkerIcon mag) = divHtml (markerStyle mag) /\
  nth_error (markerStyle mag) 1
  = Some ("width", NumberToString (markerSize mag) ++ "px") /\
  nth_error (markerStyle mag) 2
  = Some ("height", NumberToString (markerSize mag) ++ "px") /\
  (forall x y : float,
      (x <=? y)%float = true ->
      (markerSize (JsNumber x) <=? markerSize (JsNumber y))%float = true) /\
  (forall j k : Z,
      (-100 <= j)%Z -> (j < k)%Z -> (k <= 1000)%Z ->
      (hundredths j <? hundredths k)%float = true /\
      (markerSize (JsNumber (hundredths j))
       <? markerSize (JsNumber (hundredths k)))%float = true).
Proof.
  repeat match goal with |- _ /\ _ => split end; try reflexivity.
  - intros x y Hxy. now apply size_mono.
  - intros j k Hj Hjk Hk. split.
    + apply (grows_on_scale_spec _ hundredths_grow_on_scale); lia.
    + apply (grows_on_scale_spec _ markerSize_grows_on_scale); lia.
Qed.

(** * Further properties *)

(** ** Thresholds and magnitudes *)

Lemma is_nan_not_number (x : float) :
  is_nan x = true <-> is_number (Prim2SF x) = false.
Proof.
  unfold is_nan. rewrite FloatAxioms.eqb_spec. unfold SFeqb.
  rewrite SFcompare_refl. destruct (Prim2SF x); simpl; split; congruence.
Qed.

Lemma nan_leb (t x : float) : is_nan t = true -> (t <=? x)%float = false.
Proof.
  intros Ht. apply is_nan_not_number in Ht.
  destruct (t <=? x)%float eqn:E; [ | reflexivity].
  apply leb_value_of in E. destruct E as (Hn & _). congruence.
Qed.

Lemma leb_trans (x y z : float) :
  (x <=? y)%float = true -> (y <=? z)%float = true -> (x <=? z)%float = true.
Proof.
  rewrite !leb_value_of. intros (Hx & _ & Hxy) (_ & Hz & Hyz).
  repeat split; auto. lia.
Qed.

(** A value that passes a threshold passes every lower one. *)
Lemma ge_lower (v : JsValue) (t1 t2 : float) :
  (t1 <=? t2)%float = true -> ge v t2 = true -> ge v t1 = true.
Proof. rewrite !ge_ToNumber. apply leb_trans. Qed.

Section Refine.
Context {A : Type} (p1 p2 : A -> bool).
Hypothesis p2_p1 : forall x : A, p2 x = true -> p1 x = true.

Lemma Array_filter_refine (l : list A) :
  Array_filter p2 (Array_filter p1 l) = Array_filter p2 l.
Proof.
  induction l as [ | x l IH]; simpl; auto.
  destruct (p1 x) eqn:H1; simpl.
  - now rewrite IH.
  - destruct (p2 x) eqn:H2; [ | exact IH].
    rewrite (p2_p1 x H2) in H1. discriminate.
Qed.

Lemma Array_filter_refine_length (l : list A) :
  List.length (Array_filter p2 l) <= List.length (Array_filter p1 l).
Proof.
  induction l as [ | x l IH]; simpl; auto.
  destruct (p2 x) eqn:H2.
  - rewrite (p2_p1 x H2). simpl. lia.
  - destruct (p1 x); simpl; lia.
Qed.

End Refine.

(** X1.  Raising the threshold only hides events: for thresholds
    [t1 <= t2], filtering at [t2] what the filter at [t1] kept is filtering
    the loaded list at [t2], every event shown at [t2] is shown at [t1], and
    there are no more events at [t2] than at [t1]. *)
Theorem raising_threshold_hides (s : AppState) (t1 t2 : float) :
  (t1 <=? t2)%float = true ->
  Array_filter (at_least t2) (filteredQuakes (apply_set s (setMinMagnitude t1)))
  = filteredQuakes (apply_set s (setMinMagnitude t2)) /\
  (forall q : Feature,
      In q (filteredQuakes (apply_set s (setMinMagnitude t2))) ->
      In q (filteredQuakes (apply_set s (setMinMagnitude t1)))) /\
  List.length (filteredQuakes (apply_set s (setMinMagnitude t2)))
  <= List.length (filteredQuakes (apply_set s (setMinMagnitude t1))).
Proof.
  intros Ht.
  assert (Hp : forall q : Feature, at_least t2 q = true -> at_least t1 q = true).
  { intros q. unfold at_least. now apply ge_lower. }
  change (filteredQuakes (apply_set s (setMinMagnitude t1)))
    with (Array_filter (at_least t1) (earthquakes s)).
  change (filteredQuakes (apply_set s (setMinMagnitude t2)))
    with (Array_filter (at_least t2) (earthquakes s)).
  split; [now apply Array_filter_refine | split].
  - intros q. rewrite !Array_filter_In. intros [Hin H2]. auto.
  - now apply Array_filter_refine_length.
Qed.

Lemma Array_filter_none {A : Type} (p : A -> bool) (l : list A) :
  (forall x : A, p x = false) -> Array_filter p l = [].
Proof.
  intros H. induction l as [ | x l IH]; simpl; auto. now rewrite H.
Qed.

(** X2.  A threshold that is NaN hides every event, so a slider value that
    [parseFloat] cannot read leaves no marker; and an event whose magnitude
    has no number (a missing magnitude, NaN) is hidden at every threshold. *)
Theorem no_number_no_marker (s : AppState) :
  (forall t : float,
      is_nan t = true -> filteredQuakes (apply_set s (setMinMagnitude t)) = []) /\
  (forall value : string,
      is_nan (parseFloat value) = true ->
      filteredQuakes (step s (UserChange (MagnitudeChange value))) = [] /\
      rendered_markers (render (step s (UserChange (MagnitudeChange value))))
      = []) /\
  (forall q : Feature,
      is_nan (ToNumber (mag (properties q))) = true ->
      ~ In q (filteredQuakes s)) /\
  (forall q : Feature,
      mag (properties q) = JsUndefined -> ~ In q (filteredQuakes s)).
Proof.
  assert (Hnan : forall t : float,
             is_nan t = true ->
             filteredQuakes (apply_set s (setMinMagnitude t)) = []).
  { intros t Ht. unfold filteredQuakes. apply Array_filter_none.
    intros q. rewrite ge_ToNumber. now apply nan_leb. }
  assert (Hmag : forall q : Feature,
             is_nan (ToNumber (mag (properties q))) = true ->
             ~ In q (filteredQuakes s)).
  { intros q Hq Hin. unfold filteredQuakes in Hin.
    apply Array_filter_In in Hin. destruct Hin as [_ Hge].
    rewrite ge_ToNumber, (leb_nan _ _ Hq) in Hge. discriminate. }
  split; [exact Hnan | split; [ | split; [exact Hmag | ]]].
  - intros value Hv.
    assert (Hf : filteredQuakes (step s (UserChange (MagnitudeChange value)))
                 = []) by (apply Hnan, Hv).
    split; [exact Hf | ].
    unfold render. rewrite Hf.
    destruct (negb _ && negb _); [destruct (selectedRegion _) | ]; reflexivity.
  - intros q Hq. apply Hmag. now rewrite Hq.
Qed.

(** X3.  A [null] magnitude counts as 0: the event is shown exactly when
    the threshold is at most 0, as a blue marker of size 8.  An event of
    negative magnitude is hidden at every threshold from 0 up, the initial
    one among them. *)
Theorem null_and_negative_magnitudes (s : AppState) (q : Feature) :
  (mag (properties q) = JsNull ->
   (In q (filteredQuakes s)
    <-> In q (earthquakes s) /\ (minMagnitude s <=? 0)%float = true) /\
   getColor (mag (properties q)) = "blue" /\
   markerSize (mag (properties q)) = 8%float) /\
  (forall m : float,
      mag (properties q) = JsNumber m -> (m <? 0)%float = true ->
      (0 <=? minMagnitude s)%float = true ->
      ~ In q (filteredQuakes s)) /\
  minMagnitude App_init = 0%float.
Proof.
  split; [ | split; [ | reflexivity]].
  - intros Hq. rewrite Hq. split; [ | split; reflexivity].
    unfold filteredQuakes. rewrite Array_filter_In, Hq, ge_ToNumber.
    reflexivity.
  - intros m Hq Hm Ht Hin. unfold filteredQuakes in Hin.
    apply Array_filter_In in Hin. destruct Hin as [_ Hge].
    rewrite Hq, ge_Number, (ltb_leb_trans m 0 (minMagnitude s) Hm Ht) in Hge.
    discriminate.
Qed.

(** ** Markers *)

Lemma Array_map_map {A B : Type} (f : A -> B) (l : list A) :
  Array_map f l = map f l.
Proof. induction l; simpl; congruence. Qed.

Lemma NoDup_map_Array_filter {A B : Type} (f : A -> B) (p : A -> bool)
      (l : list A) :
  NoDup (map f l) -> NoDup (map f (Array_filter p l)).
Proof.
  induction l as [ | x l IH]; simpl; intros H; [constructor | ].
  inversion H as [ | y l' Hx Hl]; subst.
  destruct (p x); [ | now apply IH].
  simpl. constructor; [ | now apply IH].
  intros Hin. apply Hx. apply in_map_iff in Hin.
  destruct Hin as (z & Hz & Hzin). apply Array_filter_In in Hzin.
  apply in_map_iff. exists z. tauto.
Qed.

Lemma NoDup_map_on {A B : Type} (f : A -> B) (l : list A) :
  (forall x y : A, In x l -> In y l -> f x = f y -> x = y) ->
  NoDup l -> NoDup (map f l).
Proof.
  induction l as [ | x l IH]; simpl; intros Hinj H; [constructor | ].
  inversion H as [ | y l' Hx Hl]; subst. constructor.
  - intros Hin. apply in_map_iff in Hin. destruct Hin as (z & Hz & Hzin).
    apply Hx. rewrite (Hinj x z); auto.
  - apply IH; auto.
Qed.

(** X4.  React keeps the key of a marker as the string ['' + id].  If the
    identifiers of the loaded events are strings, as in the feed, and
    pairwise different, the markers of every render have pairwise different
    keys.  Identifiers of different kinds can give one key: the identifier
    [null] and the string ["null"] do, and so do [true] and ["true"]. *)
Theorem marker_keys_distinct (s : AppState) :
  ((forall q : Feature,
       In q (earthquakes s) -> exists k : string, id q = JsString k) ->
   NoDup (map id (earthquakes s)) ->
   NoDup (map key (rendered_markers (render s)))) /\
  (forall q1 q2 : Feature,
      (id q1 = JsNull /\ id q2 = JsString "null") \/
      (id q1 = JsBoolean true /\ id q2 = JsString "true") ->
      id q1 <> id q2 /\ key (renderMarker q1) = key (renderMarker q2)).
Proof.
  split.
  - intros Hstr Hid.
    assert (Hall : NoDup (map key (Array_map renderMarker (filteredQuakes s)))).
    { rewrite Array_map_map, map_map. cbn [key renderMarker].
      rewrite <- (map_map id React_key).
      apply NoDup_map_on.
      - intros x y Hx Hy. apply in_map_iff in Hx, Hy.
        destruct Hx as (qx & <- & Hqx), Hy as (qy & <- & Hqy).
        apply Array_filter_In in Hqx, Hqy.
        destruct (Hstr qx (proj1 Hqx)) as [kx ->].
        destruct (Hstr qy (proj1 Hqy)) as [ky ->].
        simpl. now intros [= ->].
      - now apply NoDup_map_Array_filter. }
    unfold render.
    destruct (negb _ && negb _); [destruct (selectedRegion s) | ];
      simpl; try constructor. exact Hall.
  - intros q1 q2 [[H1 H2] | [H1 H2]]; cbn [renderMarker key];
      rewrite H1, H2; split; [discriminate | reflexivity
                             | discriminate | reflexivity].
Qed.

(** ** Sessions *)

Lemma Array_find_In {A : Type} (p : A -> bool) (l : list A) (x : A) :
  Array_find p l = Some x -> In x l /\ p x = true.
Proof.
  induction l as [ | y l IH]; simpl; [discriminate | ].
  destruct (p y) eqn:Hy.
  - intros [= <-]. auto.
  - intros H. destruct (IH H). auto.
Qed.

(** Whatever is selected, the new region is an entry of the catalog. *)
Lemma select_onChange_In (value : string) :
  exists r : Region,
    select_onChange value = setSelectedRegion (Some r) /\ In r regions.
Proof.
  unfold select_onChange.
  destruct (Array_find _ regions) as [r | ] eqn:E.
  - exists r. split; [reflexivity | ]. now apply Array_find_In in E.
  - eexists. split; [reflexivity | ]. simpl. auto.
Qed.

Lemma user_changes_keep_catalog (changes : list Change) (s : AppState) :
  (exists r : Region, selectedRegion s = Some r /\ In r regions) ->
  exists r : Region,
    selectedRegion (fold_left step (map UserChange changes) s) = Some r /\
    In r regions.
Proof.
  revert s. induction changes as [ | c changes IH]; intros s Hs;
    cbn [map fold_left]; auto.
  apply IH. destruct c as [value | value]; [ | exact Hs].
  destruct (select_onChange_In value) as (r & Hr & Hin).
  exists r. cbn [step]. rewrite Hr. auto.
Qed.

Lemma In_Array_map {A B : Type} (f : A -> B) (l : list A) (x : A) :
  In x l -> In (f x) (Array_map f l).
Proof. rewrite Array_map_map. apply in_map. Qed.

(** X6.  At every moment of a session the selected region is an entry of
    the catalog, so that the reads [selectedRegion.name], [.center] and
    [.zoom] find a region; and whenever the dropdown is rendered its value
    is one of its options, which are the names of the catalog in order. *)
Theorem selected_region_in_catalog (outcome : FetchOutcome)
        (changes : list Change) :
  (exists r : Region,
      selectedRegion (session outcome changes) = Some r /\ In r regions) /\
  (forall (v : View) (c : Content),
      render (session outcome changes) = Some v -> content v = Some c ->
      select_options c = map name regions /\
      In (select_value c) (select_options c)).
Proof.
  assert (Hcat : exists r : Region,
             selectedRegion (session outcome changes) = Some r /\
             In r regions).
  { unfold session. apply user_changes_keep_catalog.
    exists {| name := "World"; center := [20%float; 0%float];
              zoom := 2%float |}.
    split; [ | simpl; auto].
    destruct (outcome_cases outcome) as [[msg H] | (data & -> & _)];
      [now rewrite (settle_failure _ _ _ H) | reflexivity]. }
  split; [exact Hcat | ].
  destruct Hcat as (r & Hr & Hin).
  intros v c. unfold render. rewrite Hr.
  destruct (negb _ && negb _); intros [= <-]; [ | discriminate].
  intros [= <-].
  split; [reflexivity | exact (In_Array_map name regions r Hin)].
Qed.

(** X7.  The page has three guarded parts: the loading text under
    [loading], the error text under [error], the controls with the map
    under [!loading && !error].  Exactly one of the three guards holds at
    the first render ([loading]) and at every moment of a session (never
    [loading]); and a render that returns shows exactly the parts whose
    guards hold. *)
Theorem one_part_shown :
  (guards App_init = [true; false; false]) /\
  (forall (outcome : FetchOutcome) (changes : list Change),
      guards (session outcome changes) = [false; true; false] \/
      guards (session outcome changes) = [false; false; true]) /\
  (forall (s : AppState) (v : View),
      render s = Some v ->
      [loading_p v;
       match error_p v with Some _ => true | None => false end;
       match content v with Some _ => true | None => false end]
      = guards s /\
      parts_shown v = count_occ Bool.bool_dec (guards s) true).
Proof.
  split; [reflexivity | split].
  - intros outcome changes.
    assert (Hl : loading (session outcome changes) = false).
    { unfold session.
      destruct (user_changes_keep_loader changes (settle App_init outcome))
        as [-> _].
      destruct (outcome_cases outcome) as [[msg H] | (data & -> & _)];
        [now rewrite (settle_failure _ _ _ H) | reflexivity]. }
    unfold guards. rewrite Hl.
    destruct (ToBoolean (error (session outcome changes))); auto.
  - intros s v. unfold render, guards.
    destruct (loading s), (ToBoolean (error s)); cbn [negb andb];
      try (intros [= <-]; split; reflexivity).
    destruct (selectedRegion s); [ | discriminate].
    intros [= <-]; split; reflexivity.
Qed.

Lemma step_no_failure_keeps_error (s : AppState) (e : Event) :
  no_failure e = true -> error (step s e) = error s.
Proof.
  destruct e as [outcome | c]; cbn [no_failure step].
  - destruct (outcome_cases outcome) as [[msg H] | (data & -> & _)];
      [rewrite H; discriminate | reflexivity].
  - intros _. apply user_change_keeps_loader.
Qed.

Lemma steps_no_failure_keep_error (events : list Event) (s : AppState) :
  forallb no_failure events = true ->
  error (fold_left step events s) = error s.
Proof.
  revert s. induction events as [ | e events IH]; intros s; simpl; auto.
  intros H. apply andb_prop in H. destruct H as [He Hes].
  now rewrite (IH _ Hes), step_no_failure_keeps_error.
Qed.

(** X8.  A request that succeeds does not clear an error: once the error
    cell holds a message that is not empty, it holds it through every
    change of the controls and every later request that succeeds, and each
    render shows the error text and neither the map nor a marker, even when
    events have been loaded since. *)
Theorem error_outlives_success (s : AppState) (events : list Event) :
  ToBoolean (error s) = true ->
  forallb no_failure events = true ->
  error (fold_left step events s) = error s /\
  (exists v : View,
      render (fold_left step events s) = Some v /\
      error_p v = Some (error s) /\ content v = None) /\
  rendered_markers (render (fold_left step events s)) = [] /\
  (forall data : FeatureCollection,
      earthquakes (step s (FetchSettled (success data))) = features data /\
      rendered_markers (render (step s (FetchSettled (success data)))) = []).
Proof.
  intros He Hev.
  assert (Hkeep : forall evs : list Event,
             forallb no_failure evs = true ->
             render (fold_left step evs s)
             = Some {| loading_p := loading (fold_left step evs s);
                       error_p := Some (error s);
                       content := None |}).
  { intros evs Hevs. unfold render.
    rewrite (steps_no_failure_keep_error evs s Hevs), He.
    now rewrite andb_false_r. }
  split; [now apply steps_no_failure_keep_error | split; [ | split]].
  - eexists. split; [now apply Hkeep | split; reflexivity].
  - now rewrite (Hkeep events Hev).
  - intros data. split; [reflexivity | ].
    change (step s (FetchSettled (success data)))
      with (fold_left step [FetchSettled (success data)] s).
    now rewrite (Hkeep [FetchSettled (success data)] eq_refl).
Qed.

(** X9.  The two controls are independent.  A change of the region and a
    change of the threshold give the same state in either order; of two
    changes of one control the later stands; a change of the region leaves
    the filtered events as they are, and a change of the threshold leaves
    the selected region as it is. *)
Theorem controls_independent (s : AppState) (a a' b b' : string) :
  step (step s (UserChange (RegionChange a))) (UserChange (MagnitudeChange b))
  = step (step s (UserChange (MagnitudeChange b))) (UserChange (RegionChange a)) /\
  step (step s (UserChange (RegionChange a))) (UserChange (RegionChange a'))
  = step s (UserChange (RegionChange a')) /\
  step (step s (UserChange (MagnitudeChange b))) (UserChange (MagnitudeChange b'))
  = step s (UserChange (MagnitudeChange b')) /\
  filteredQuakes (step s (UserChange (RegionChange a))) = filteredQuakes s /\
  selectedRegion (step s (UserChange (MagnitudeChange b))) = selectedRegion s /\
  (selectedRegion s <> None ->
   rendered_markers (render (step s (UserChange (RegionChange a))))
   = rendered_markers (render s)).
Proof.
  repeat match goal with |- _ /\ _ => split end; try reflexivity.
  intros Hr. unfold render.
  change (filteredQuakes (step s (UserChange (RegionChange a))))
    with (filteredQuakes s).
  change (loading (step s (UserChange (RegionChange a)))) with (loading s).
  change (error (step s (UserChange (RegionChange a)))) with (error s).
  destruct (negb (loading s) && negb (ToBoolean (error s))); [ | reflexivity].
  destruct (select_onChange_In a) as (r & Hsel & _).
  cbn [step]. rewrite Hsel. cbn [apply_set selectedRegion].
  destruct (selectedRegion s); [reflexivity | contradiction].
Qed.

(** ** Colour and size *)

Lemma ltb_leb (x y : float) : (x <? y)%float = true -> (x <=? y)%float = true.
Proof.
  rewrite FloatAxioms.ltb_spec, FloatAxioms.leb_spec. unfold SFltb, SFleb.
  destruct (SFcompare (Prim2SF x) (Prim2SF y)) as [[ | | ] | ];
    auto; discriminate.
Qed.

(** The colour of a value, with what it says of the value's number. *)
Lemma getColor_cases (v : JsValue) :
  (getColor v = "red" /\ (6 <=? ToNumber v)%float = true) \/
  (getColor v = "orange" /\ (5 <=? ToNumber v)%float = true /\
   (ToNumber v <? 6)%float = true) \/
  (getColor v = "yellow" /\ (4 <=? ToNumber v)%float = true /\
   (ToNumber v <? 5)%float = true) \/
  (getColor v = "blue" /\
   ((ToNumber v <? 4)%float = true \/ is_nan (ToNumber v) = true)).
Proof.
  change (getColor v) with (getColor (JsNumber (ToNumber v))).
  rewrite getColor_Number.
  destruct (6 <=? ToNumber v)%float eqn:H6; [now left | right].
  destruct (5 <=? ToNumber v)%float eqn:H5.
  { left. repeat split. below 6%float. assumption. }
  right. destruct (4 <=? ToNumber v)%float eqn:H4.
  { left. repeat split. below 5%float. assumption. }
  right. split; [reflexivity | ].
  destruct (leb_false_ltb _ _ H4) as [? | [? | ?]]; auto. discriminate.
Qed.

(** A value of a less severe colour has the smaller number. *)
Lemma severity_order (v w : JsValue) :
  is_nan (ToNumber v) = false ->
  severity (getColor v) < severity (getColor w) ->
  (ToNumber v <=? ToNumber w)%float = true.
Proof.
  intros Hnn Hsev.
  destruct (getColor_cases v)
    as [[Hv V6] | [(Hv & V5 & V6) | [(Hv & V4 & V5) | [Hv [V4 | Vn]]]]];
    try congruence;
    destruct (getColor_cases w)
      as [[Hw W6] | [(Hw & W5 & W6) | [(Hw & W4 & W5) | [Hw _]]]];
    rewrite Hv, Hw in Hsev; vm_compute in Hsev; try lia.
  - exact (leb_trans _ _ _ (ltb_leb _ _ V6) W6).
  - exact (leb_trans _ _ _ (ltb_leb _ _ V5) (leb_trans 5 6 _ eq_refl W6)).
  - exact (leb_trans _ _ _ (ltb_leb _ _ V5) W5).
  - exact (leb_trans _ _ _ (ltb_leb _ _ V4) (leb_trans 4 6 _ eq_refl W6)).
  - exact (leb_trans _ _ _ (ltb_leb _ _ V4) (leb_trans 4 5 _ eq_refl W5)).
  - exact (leb_trans _ _ _ (ltb_leb _ _ V4) W4).
Qed.

(** X10.  Colour and size agree.  A red marker is at least 26 wide, an
    orange one between 23 and 26, a yellow one between 20 and 23, and a
    blue one at most 20 unless its magnitude has no number; and a marker
    of a less severe colour is never larger than one of a more severe
    colour. *)
Theorem colour_matches_size (v : JsValue) :
  (getColor v = "red" -> (26 <=? markerSize v)%float = true) /\
  (getColor v = "orange" ->
   (23 <=? markerSize v)%float = true /\ (markerSize v <=? 26)%float = true) /\
  (getColor v = "yellow" ->
   (20 <=? markerSize v)%float = true /\ (markerSize v <=? 23)%float = true) /\
  (getColor v = "blue" -> is_nan (ToNumber v) = false ->
   (markerSize v <=? 20)%float = true) /\
  (forall w : JsValue,
      is_nan (ToNumber v) = false ->
      severity (getColor v) < severity (getColor w) ->
      (markerSize v <=? markerSize w)%float = true).
Proof.
  assert (Hup : forall c : float,
             (c <=? ToNumber v)%float = true ->
             (8 + c * 3 <=? markerSize v)%float = true).
  { intros c Hc. now apply size_mono. }
  assert (Hdown : forall c : float,
             (ToNumber v <? c)%float = true ->
             (markerSize v <=? 8 + c * 3)%float = true).
  { intros c Hc. apply size_mono. now apply ltb_leb. }
  split; [ | split; [ | split; [ | split]]].
  - intros Hc.
    destruct (getColor_cases v)
      as [[_ V6] | [(Hv & _) | [(Hv & _) | [Hv _]]]]; try congruence.
    exact (Hup 6%float V6).
  - intros Hc.
    destruct (getColor_cases v)
      as [[Hv _] | [(_ & V5 & V6) | [(Hv & _) | [Hv _]]]]; try congruence.
    split; [exact (Hup 5%float V5) | exact (Hdown 6%float V6)].
  - intros Hc.
    destruct (getColor_cases v)
      as [[Hv _] | [(Hv & _) | [(_ & V4 & V5) | [Hv _]]]]; try congruence.
    split; [exact (Hup 4%float V4) | exact (Hdown 5%float V5)].
  - intros Hc Hnn.
    destruct (getColor_cases v)
      as [[Hv _] | [(Hv & _) | [(Hv & _) | [_ [V4 | Vn]]]]]; try congruence.
    exact (Hdown 4%float V4).
  - intros w Hnn Hsev. apply size_mono. now apply severity_order.
Qed.

(** ** The map view changer *)

(** On the catalog, one centre and zoom belong to one entry. *)
Lemma catalog_deps (r r' : Region) :
  In r regions -> In r' regions ->
  same_numbers (center r) (center r') && Number_sameValue (zoom r) (zoom r')
  = true <-> r = r'.
Proof.
  intros Hr Hr'. simpl in Hr, Hr'.
  repeat destruct Hr as [<- | Hr]; try contradiction;
    repeat destruct Hr' as [<- | Hr']; try contradiction;
    split; intros H; try reflexivity; try discriminate H.
Qed.

Lemma select_onChange_present (r : Region) :
  In r regions -> select_onChange (name r) = setSelectedRegion (Some r).
Proof.
  intros Hr. simpl in Hr.
  repeat destruct Hr as [<- | Hr]; try reflexivity. contradiction.
Qed.

(** X11.  The map is re-centred exactly when the selected region changes.
    While the map is shown with a catalog entry selected: the effect of
    [MapViewChanger] calls [setView] with the entry's centre and zoom when
    it mounts; a change of the threshold calls nothing; selecting another
    entry calls [setView] once, with that entry's centre and zoom; and
    selecting the entry again calls nothing. *)
Theorem map_follows_region (s : AppState) (r : Region) :
  loading s = false -> ToBoolean (error s) = false ->
  selectedRegion s = Some r -> In r regions ->
  MapViewChanger_calls None (render s) = [setView (center r) (zoom r)] /\
  (forall value : string,
      MapViewChanger_calls
        (render s) (render (step s (UserChange (MagnitudeChange value))))
      = []) /\
  (forall r' : Region,
      In r' regions -> r' <> r ->
      MapViewChanger_calls
        (render s) (render (step s (UserChange (RegionChange (name r')))))
      = [setView (center r') (zoom r')]) /\
  MapViewChanger_calls
    (render s) (render (step s (UserChange (RegionChange (name r)))))
  = [].
Proof.
  intros Hl He Hr Hin.
  assert (Hrender : forall s' : AppState, forall r' : Region,
             loading s' = false -> ToBoolean (error s') = false ->
             selectedRegion s' = Some r' ->
             exists c : Content,
               render s' = Some {| loading_p := false; error_p := None;
                                   content := Some c |} /\
               map_center c = center r' /\ map_zoom c = zoom r').
  { intros s' r' Hl' He' Hr'. unfold render. rewrite Hl', He', Hr'.
    eexists. split; [reflexivity | split; reflexivity]. }
  assert (Hsame : same_numbers (center r) (center r)
                  && Number_sameValue (zoom r) (zoom r) = true)
    by now apply catalog_deps.
  destruct (Hrender s r Hl He Hr) as (c & Hc & Hcc & Hcz).
  rewrite Hc.
  split; [ | split; [ | split]].
  - lazy beta iota delta [MapViewChanger_calls MapViewChanger_effect].
    now rewrite Hcc, Hcz.
  - intros value.
    destruct (Hrender (step s (UserChange (MagnitudeChange value))) r
                Hl He Hr) as (c' & -> & Hcc' & Hcz').
    lazy beta iota delta [MapViewChanger_calls MapViewChanger_effect].
    now rewrite Hcc, Hcz, Hcc', Hcz', Hsame.
  - intros r' Hin' Hne.
    assert (Hr' : selectedRegion (step s (UserChange (RegionChange (name r'))))
                  = Some r').
    { cbn [step]. now rewrite (select_onChange_present r' Hin'). }
    destruct (Hrender (step s (UserChange (RegionChange (name r')))) r'
                Hl He Hr') as (c' & -> & Hcc' & Hcz').
    lazy beta iota delta [MapViewChanger_calls MapViewChanger_effect].
    rewrite Hcc, Hcz, Hcc', Hcz'.
    destruct (same_numbers (center r) (center r')
              && Number_sameValue (zoom r) (zoom r')) eqn:E; [ | reflexivity].
    apply catalog_deps in E; auto. congruence.
  - assert (Hr' : selectedRegion (step s (UserChange (RegionChange (name r))))
                  = Some r).
    { cbn [step]. now rewrite (select_onChange_present r Hin). }
    destruct (Hrender (step s (UserChange (RegionChange (name r)))) r
                Hl He Hr') as (c' & -> & Hcc' & Hcz').
    lazy beta iota delta [MapViewChanger_calls MapViewChanger_effect].
    now rewrite Hcc, Hcz, Hcc', Hcz', Hsame.
Qed.

End Builtins.

(** * Closed instances

    The instances below run the component on numbers, [null] and
    [undefined] only, and parse no slider value: no result depends on what
    the four built-in conversions answer, which are the fixed answers
    declared with the built-ins. *)


Abbreviation getColor0 := (getColor StringToNumber_unused).
Abbreviation markerSize0 := (markerSize StringToNumber_unused).
Abbreviation filteredQuakes0 := (filteredQuakes StringToNumber_unused).
Abbreviation render0 :=
  (render StringToNumber_unused NumberToString_unused
          Date_toLocaleString_unused).
Abbreviation rendered_markers0 := rendered_markers.
Abbreviation step0 := (step parseFloat_unused).

Lemma getColor_buckets_witness :
  ((4 <=? 4.5)%float = true /\ (4.5 <? 5)%float = true) /\
  getColor0 (JsNumber 4.5) = "yellow".
Proof.
  split; [split; reflexivity | ].
  apply (proj1 (proj2 (getColor_buckets StringToNumber_unused))).
  split; reflexivity.
Defined.

(** C10, as the spec has it, fails: on an object with a property
    [toString] of its own, here [{ toString: null }], the first comparison
    of [getColor] throws and no colour is returned. *)
Lemma getColor_throws_on_object :
  getColor_any StringToNumber_unused NumberToString_unused
    (JsObject [("toString", JsPrimitive JsNull)])
  = None /\
  ~ (exists color : string,
        getColor_any StringToNumber_unused NumberToString_unused
          (JsObject [("toString", JsPrimitive JsNull)])
        = Some color /\
        In color ["red"; "orange"; "yellow"; "blue"]).
Proof.
  split; [reflexivity | ].
  intros (color & H & _). discriminate H.
Qed.

Lemma getColor_total_witness :
  (is_nan (ToNumber StringToNumber_unused JsUndefined) = true /\
   getColor0 JsUndefined = "blue") /\
  (HasOwnProperty [("toString", JsPrimitive JsNull)] "toString" = true /\
   getColor_any StringToNumber_unused NumberToString_unused
     (JsObject [("toString", JsPrimitive JsNull)])
   = None) /\
  (HasOwnProperty [("mag", JsPrimitive (JsNumber 6.2))] "toString" = false /\
   getColor_any StringToNumber_unused NumberToString_unused
     (JsObject [("mag", JsPrimitive (JsNumber 6.2))])
   = Some "blue").
Proof.
  destruct (getColor_total StringToNumber_unused NumberToString_unused)
    as (_ & _ & Hnan & _ & _ & _ & Hthrow & Hobject).
  split; [split; [reflexivity | apply Hnan; reflexivity] | ].
  split; (split; [reflexivity | ]).
  - apply Hthrow. reflexivity.
  - now rewrite (Hobject [("mag", JsPrimitive (JsNumber 6.2))] eq_refl).
Defined.

Lemma filteredQuakes_exact_witness :
  mag (properties example_quake) = JsNumber 6.2 /\
  In example_quake (earthquakes (settle App_init example_feed)) /\
  (minMagnitude (settle App_init example_feed) <=? 6.2)%float = true /\
  In example_quake (filteredQuakes0 (settle App_init example_feed)).
Proof.
  assert (Hin : In example_quake (earthquakes (settle App_init example_feed))).
  { left. reflexivity. }
  split; [reflexivity | split; [exact Hin | split; [reflexivity | ]]].
  destruct (filteredQuakes_exact StringToNumber_unused
              (settle App_init example_feed)) as (_ & _ & _ & Hnum & _).
  apply (Hnum example_quake 6.2%float eq_refl).
  split; [exact Hin | reflexivity].
Defined.


(** C6, as the spec has it, fails: the success path never writes the error
    cell.  From a state that holds an error (here the state a rejected
    request leaves), a success stores the events and leaves the error where
    it is. *)
Lemma fetch_success_keeps_error :
  error (settle App_init (inl (Error "Failed to fetch")))
  = JsString "Failed to fetch" /\
  earthquakes
    (settle (settle App_init (inl (Error "Failed to fetch"))) example_feed)
  = [example_quake] /\
  error
    (settle (settle App_init (inl (Error "Failed to fetch"))) example_feed)
  = JsString "Failed to fetch" /\
  ToBoolean
    (error
       (settle (settle App_init (inl (Error "Failed to fetch"))) example_feed))
  = true /\
  error
    (settle (settle App_init (inl (Error "Failed to fetch"))) example_feed)
  <> JsNull.
Proof. repeat split. discriminate. Qed.

Lemma fetch_failure_witness :
  failure_message (inr {| ok := false; json := inr {| features := [] |} |})
  = Some "Failed to fetch earthquake data!" /\
  error (settle App_init
           (inr {| ok := false; json := inr {| features := [] |} |}))
  = JsString "Failed to fetch earthquake data!" /\
  loading (settle App_init
             (inr {| ok := false; json := inr {| features := [] |} |}))
  = false /\
  rendered_markers0
    (render0 (settle App_init
                (inr {| ok := false; json := inr {| features := [] |} |})))
  = [].
Proof.
  split; [reflexivity | ].
  pose proof (fetch_failure StringToNumber_unused NumberToString_unused
                parseFloat_unused Date_toLocaleString_unused
                (inr {| ok := false; json := inr {| features := [] |} |})
                "Failed to fetch earthquake data!" eq_refl)
    as (He & _ & _ & _ & Hl & Hm & _).
  repeat split; assumption.
Defined.

Lemma select_region_witness :
  (In {| name := "Japan"; center := [36%float; 138%float]; zoom := 5%float |}
      regions /\
   selectedRegion (step0 App_init (UserChange (RegionChange "Japan")))
   = Some {| name := "Japan"; center := [36%float; 138%float];
             zoom := 5%float |}) /\
  ((forall r : Region, In r regions -> name r <> "Atlantis") /\
   selectedRegion (step0 App_init (UserChange (RegionChange "Atlantis")))
   = Some {| name := "World"; center := [20%float; 0%float];
             zoom := 2%float |}).
Proof.
  assert (Hin : In {| name := "Japan"; center := [36%float; 138%float];
                      zoom := 5%float |} regions).
  { simpl. tauto. }
  assert (Hout : forall r : Region, In r regions -> name r <> "Atlantis").
  { intros r Hr. simpl in Hr.
    repeat destruct Hr as [<- | Hr]; try discriminate. contradiction. }
  split; split; [exact Hin | | exact Hout | ].
  - destruct (select_region StringToNumber_unused NumberToString_unused
                parseFloat_unused Date_toLocaleString_unused App_init "Japan")
      as (_ & Hpresent & _).
    exact (proj1 (Hpresent _ Hin eq_refl)).
  - destruct (select_region StringToNumber_unused NumberToString_unused
                parseFloat_unused Date_toLocaleString_unused App_init
                "Atlantis") as (_ & _ & Habsent).
    destruct (Habsent Hout) as [-> ->]. reflexivity.
Defined.

Lemma loader_lifecycle_witness :
  loading (settle App_init example_feed) = false /\
  loading (step0 (settle App_init example_feed)
                 (FetchSettled (inl (Error "Failed to fetch"))))
  = false /\
  error (settle App_init (inl (Error "Failed to fetch"))) <> JsNull /\
  error (step0 (settle App_init (inl (Error "Failed to fetch")))
               (FetchSettled example_feed))
  <> JsNull.
Proof.
  destruct (loader_lifecycle parseFloat_unused)
    as (_ & _ & _ & _ & _ & _ & Hloading & Herror & _).
  assert (Hl : loading (settle App_init example_feed) = false)
    by reflexivity.
  assert (He : error (settle App_init (inl (Error "Failed to fetch")))
               <> JsNull) by discriminate.
  split; [exact Hl | split; [ | split; [exact He | ]]].
  - exact (Hloading _ (FetchSettled (inl (Error "Failed to fetch"))) Hl).
  - exact (Herror _ (FetchSettled example_feed) He).
Defined.

Lemma markers_of_filtered_witness :
  loading (settle App_init example_feed) = false /\
  ToBoolean (error (settle App_init example_feed)) = false /\
  selectedRegion (settle App_init example_feed) <> None /\
  List.length (rendered_markers0 (render0 (settle App_init example_feed)))
  = List.length (filteredQuakes0 (settle App_init example_feed)) /\
  List.length (filteredQuakes0 (settle App_init example_feed)) = 1%nat.
Proof.
  assert (Hr : selectedRegion (settle App_init example_feed) <> None)
    by discriminate.
  split; [reflexivity | split; [reflexivity | split; [exact Hr | ]]].
  destruct (markers_of_filtered StringToNumber_unused NumberToString_unused
              parseFloat_unused Date_toLocaleString_unused
              (settle App_init example_feed))
    as (Hshown & _).
  destruct (Hshown eq_refl eq_refl Hr) as (_ & Hlen & _).
  split; [exact Hlen | reflexivity].
Defined.

(** C9, as the spec has it, fails: the magnitudes 1 and 1.0000000000000002
    differ, and both get the size 11, the product and the sum being
    rounded. *)
Lemma marker_size_not_strict :
  (1 <? 1.0000000000000002)%float = true /\
  markerSize0 (JsNumber 1) = 11%float /\
  markerSize0 (JsNumber 1.0000000000000002) = 11%float /\
  (markerSize0 (JsNumber 1) <? markerSize0 (JsNumber 1.0000000000000002))%float
  = false.
Proof. repeat split. Qed.

Lemma marker_size_witness :
  ((1 <=? 1.0000000000000002)%float = true /\
   (markerSize0 (JsNumber 1) <=? markerSize0 (JsNumber 1.0000000000000002))%float
   = true) /\
  ((hundredths 619 <? hundredths 620)%float = true /\
   (markerSize0 (JsNumber (hundredths 619))
    <? markerSize0 (JsNumber (hundredths 620)))%float = true).
Proof.
  destruct (marker_size StringToNumber_unused NumberToString_unused JsNull)
    as (_ & _ & _ & _ & Hmono & Hgrows).
  split.
  - split; [reflexivity | ]. apply Hmono. reflexivity.
  - apply (Hgrows 619%Z 620%Z); lia.
Defined.

(** ** Closed instances of the further properties *)

Lemma raising_threshold_hides_witness :
  (4.5 <=? 6.5)%float = true /\
  List.length
    (filteredQuakes0
       (apply_set (settle App_init example_feed) (setMinMagnitude 6.5)))
  <= List.length
       (filteredQuakes0
          (apply_set (settle App_init example_feed) (setMinMagnitude 4.5))).
Proof.
  split; [reflexivity | ].
  apply (raising_threshold_hides StringToNumber_unused
           (settle App_init example_feed) 4.5%float 6.5%float eq_refl).
Defined.

Lemma no_number_no_marker_witness :
  is_nan (parseFloat_unused "abc") = true /\
  filteredQuakes0
    (step0 (settle App_init example_feed) (UserChange (MagnitudeChange "abc")))
  = [].
Proof.
  split; [reflexivity | ].
  destruct (no_number_no_marker StringToNumber_unused NumberToString_unused
              parseFloat_unused Date_toLocaleString_unused
              (settle App_init example_feed)) as (_ & Hparse & _).
  exact (proj1 (Hparse "abc" eq_refl)).
Defined.

Lemma null_and_negative_magnitudes_witness :
  (-0.5 <? 0)%float = true /\
  (0 <=? minMagnitude App_init)%float = true /\
  ~ In {| id := JsString "ak1";
          properties := {| mag := JsNumber (-0.5); place := JsNull;
                           time := JsNull; url := JsNull |};
          geometry := {| coordinates := [] |} |}
       (filteredQuakes0 App_init).
Proof.
  split; [reflexivity | split; [reflexivity | ]].
  destruct (null_and_negative_magnitudes StringToNumber_unused App_init
              {| id := JsString "ak1";
                 properties := {| mag := JsNumber (-0.5); place := JsNull;
                                  time := JsNull; url := JsNull |};
                 geometry := {| coordinates := [] |} |}) as (_ & Hneg & _).
  exact (Hneg (-0.5)%float eq_refl eq_refl eq_refl).
Defined.

Lemma marker_keys_distinct_witness :
  NoDup (map id [example_quake; example_aftershock]) /\
  NoDup
    (map key
       (rendered_markers0
          (render0
             (settle App_init
                (success
                   {| features := [example_quake; example_aftershock] |}))))).
Proof.
  assert (Hid : NoDup (map id [example_quake; example_aftershock])).
  { repeat constructor; simpl; [ | tauto].
    intros [H | []]. discriminate H. }
  split; [exact Hid | ].
  apply (proj1 (marker_keys_distinct StringToNumber_unused
                  NumberToString_unused Date_toLocaleString_unused
                  (settle App_init
                     (success
                        {| features := [example_quake; example_aftershock] |})))).
  - intros q [<- | [<- | []]]; eexists; reflexivity.
  - exact Hid.
Defined.

Lemma selected_region_in_catalog_witness :
  exists r : Region,
    selectedRegion
      (session parseFloat_unused example_feed [RegionChange "Japan"])
    = Some r /\
    In r regions.
Proof.
  exact (proj1 (selected_region_in_catalog StringToNumber_unused
                  NumberToString_unused parseFloat_unused
                  Date_toLocaleString_unused example_feed
                  [RegionChange "Japan"])).
Defined.

Lemma error_outlives_success_witness :
  ToBoolean (error (settle App_init (inl (Error "Failed to fetch")))) = true /\
  forallb no_failure [FetchSettled example_feed] = true /\
  earthquakes
    (fold_left step0 [FetchSettled example_feed]
       (settle App_init (inl (Error "Failed to fetch"))))
  = [example_quake] /\
  rendered_markers0
    (render0
       (fold_left step0 [FetchSettled example_feed]
          (settle App_init (inl (Error "Failed to fetch")))))
  = [].
Proof.
  split; [reflexivity | split; [reflexivity | split; [reflexivity | ]]].
  destruct (error_outlives_success StringToNumber_unused NumberToString_unused
              parseFloat_unused Date_toLocaleString_unused
              (settle App_init (inl (Error "Failed to fetch")))
              [FetchSettled example_feed] eq_refl eq_refl)
    as (_ & _ & Hm & _).
  exact Hm.
Defined.

Lemma controls_independent_witness :
  selectedRegion (settle App_init example_feed) <> None /\
  rendered_markers0
    (render0 (step0 (settle App_init example_feed)
                    (UserChange (RegionChange "Japan"))))
  = rendered_markers0 (render0 (settle App_init example_feed)).
Proof.
  assert (Hr : selectedRegion (settle App_init example_feed) <> None)
    by discriminate.
  split; [exact Hr | ].
  destruct (controls_independent StringToNumber_unused NumberToString_unused
              parseFloat_unused Date_toLocaleString_unused
              (settle App_init example_feed) "Japan" "Asia" "1" "2")
    as (_ & _ & _ & _ & _ & Hm).
  exact (Hm Hr).
Defined.

Lemma colour_matches_size_witness :
  (getColor0 (JsNumber 5.5) = "orange" /\
   (markerSize0 (JsNumber 5.5) <=? 26)%float = true) /\
  (is_nan (ToNumber StringToNumber_unused (JsNumber 3.2)) = false /\
   severity (getColor0 (JsNumber 3.2)) < severity (getColor0 (JsNumber 6.1)) /\
   (markerSize0 (JsNumber 3.2) <=? markerSize0 (JsNumber 6.1))%float = true).
Proof.
  assert (Hsev : severity (getColor0 (JsNumber 3.2))
                 < severity (getColor0 (JsNumber 6.1))).
  { vm_compute. lia. }
  split.
  - split; [reflexivity | ].
    destruct (colour_matches_size StringToNumber_unused (JsNumber 5.5))
      as (_ & Horange & _).
    exact (proj2 (Horange eq_refl)).
  - split; [reflexivity | split; [exact Hsev | ]].
    destruct (colour_matches_size StringToNumber_unused (JsNumber 3.2))
      as (_ & _ & _ & _ & Hless).
    exact (Hless (JsNumber 6.1) eq_refl Hsev).
Defined.

Lemma map_follows_region_witness :
  (loading (settle App_init example_feed) = false /\
   ToBoolean (error (settle App_init example_feed)) = false /\
   selectedRegion (settle App_init example_feed)
   = Some {| name := "World"; center := [20%float; 0%float];
             zoom := 2%float |}) /\
  MapViewChanger_calls
    (render0 (settle App_init example_feed))
    (render0 (step0 (settle App_init example_feed)
                    (UserChange (RegionChange "Japan"))))
  = [setView [36%float; 138%float] 5%float].
Proof.
  split; [repeat split | ].
  assert (Hw : In {| name := "World"; center := [20%float; 0%float];
                     zoom := 2%float |} regions) by (simpl; tauto).
  assert (Hj : In {| name := "Japan"; center := [36%float; 138%float];
                     zoom := 5%float |} regions) by (simpl; tauto).
  destruct (map_follows_region StringToNumber_unused NumberToString_unused
              parseFloat_unused Date_toLocaleString_unused
              (settle App_init example_feed) _ eq_refl eq_refl eq_refl Hw)
    as (_ & _ & Hother & _).
  apply (Hother _ Hj). discriminate.
Defined.
